(** * db-builder: the OCR image normaliser and the schema records

    A shallow embedding of [backend/ai/imageContrast.py] and
    [backend/ai/schemas.py].

    Both files are thin layers over two external libraries, Pillow
    ([Image], [ImageOps]) and pydantic ([BaseModel]).  The parts of those
    libraries that the two files call are embedded here as well, following
    the libraries' own code: 8-bit band images, [convert], [histogram],
    [ImageOps.invert], [ImageOps.autocontrast], and keyword construction and
    attribute assignment of a [BaseModel] subclass. *)

From Stdlib Require Import ZArith QArith Qround Qpower List Ascii String Bool Lia Lqa.
Import ListNotations.
Open Scope string_scope.
Open Scope list_scope.
Open Scope Z_scope.

(** ** Python floats

    A Python float is an IEEE-754 binary64 number.  Every float that occurs
    in the two files is finite and far from the exponent limits, so a float is
    represented by the rational it denotes, and an arithmetic operation by the
    exact rational result rounded to 53 significant bits, ties to even. *)
Module Float64.

(** Round to the nearest integer, ties to the even one. *)
Definition rne (q : Q) : Z :=
  let f := Qfloor q in
  match (q - inject_Z f ?= 1 # 2)%Q with
  | Lt => f
  | Gt => f + 1
  | Eq => if Z.even f then f else f + 1
  end.

(** [floor_log2 q] is the [k] with [2^k <= q < 2^(k+1)], for [0 < q]. *)
Definition floor_log2 (q : Q) : Z :=
  let d := Z.log2 (Qnum q) - Z.log2 (Zpos (Qden q)) in
  if Qle_bool (2 ^ d)%Q q then d else d - 1.

(** Rounding of a positive rational to 53 significant bits: the last kept
    bit has weight [2^e]. *)
Definition round_pos (q : Q) : Q :=
  let e := floor_log2 q - 52 in
  (inject_Z (rne (q / 2 ^ e)%Q) * 2 ^ e)%Q.

(** Rounding of any rational: symmetric around zero.  The argument and the
    result are kept in lowest terms, so that equal rationals round to the
    same term. *)
Definition round (q : Q) : Q :=
  let r := Qred q in
  match (r ?= 0)%Q with
  | Eq => 0%Q
  | Gt => Qred (round_pos r)
  | Lt => Qred (- round_pos (- r))%Q
  end.

Definition of_int (z : Z) : Q := round (inject_Z z).
Definition add (x y : Q) : Q := round (x + y).
Definition mul (x y : Q) : Q := round (x * y).
Definition div (x y : Q) : Q := round (x / y).

(** Python's [int(x)] on a float: truncation toward zero. *)
Definition to_int (x : Q) : Z := Qnum x ÷ Zpos (Qden x).

End Float64.

(** ** Pillow images

    An image holds 8-bit samples, stored here band by band (what
    [Image.split] shows), each band in row-major order.  The modes are the
    ones a screenshot file decodes to: greyscale, RGB, RGB with alpha, and
    palette-indexed. *)
Inductive Mode := Mode_L | Mode_RGB | Mode_RGBA | Mode_P.

Definition Mode_eqb (a b : Mode) : bool :=
  match a, b with
  | Mode_L, Mode_L | Mode_RGB, Mode_RGB | Mode_RGBA, Mode_RGBA | Mode_P, Mode_P => true
  | _, _ => false
  end.

Record Image := mkImage {
  mode : Mode;
  size : nat * nat;                  (* width, height *)
  bands : list (list Z);             (* one list of samples per band *)
  palette : list (Z * Z * Z)         (* colours of a palette image *)
}.

Definition getbands (m : Mode) : nat :=
  match m with
  | Mode_L => 1 | Mode_RGB => 3 | Mode_RGBA => 4 | Mode_P => 1
  end%nat.

Definition band (im : Image) (i : nat) : list Z := nth i (bands im) [].

Definition is_byte (v : Z) : bool := (0 <=? v) && (v <=? 255).

Definition is_colour (c : Z * Z * Z) : bool :=
  let '(r, g, b) := c in is_byte r && is_byte g && is_byte b.

(** What every decoded image satisfies: as many bands as the mode has, a
    sample per pixel in every band, every sample and palette entry a byte,
    and a palette in mode P only. *)
Definition well_formed (im : Image) : bool :=
  (List.length (bands im) =? getbands (mode im))%nat
  && forallb (fun b => (List.length b =? fst (size im) * snd (size im))%nat
                       && forallb is_byte b) (bands im)
  && forallb is_colour (palette im)
  && (Mode_eqb (mode im) Mode_P || (List.length (palette im) =? 0)%nat).

(** *** Mode conversion, [Image.convert] *)

(** ITU-R 601-2 luma in 16-bit fixed point, as in Pillow's [Convert.c]. *)
Definition L24 (r g b : Z) : Z := r * 19595 + g * 38470 + b * 7471 + 0x8000.
Definition rgb2l (r g b : Z) : Z := Z.shiftr (L24 r g b) 16.

Fixpoint map3 {A B C D} (f : A -> B -> C -> D)
    (xs : list A) (ys : list B) (zs : list C) : list D :=
  match xs, ys, zs with
  | x :: xs', y :: ys', z :: zs' => f x y z :: map3 f xs' ys' zs'
  | _, _, _ => []
  end.

(** The colour of a palette index; entries past the end of the palette are
    black. *)
Definition getcolour (pal : list (Z * Z * Z)) (i : Z) : Z * Z * Z :=
  nth (Z.to_nat i) pal (0, 0, 0).

Definition red (c : Z * Z * Z) : Z := fst (fst c).
Definition green (c : Z * Z * Z) : Z := snd (fst c).
Definition blue (c : Z * Z * Z) : Z := snd c.

(** [image.convert('L')] *)
Definition convert_L (im : Image) : Image :=
  match mode im with
  | Mode_L => im
  | Mode_RGB | Mode_RGBA =>
      mkImage Mode_L (size im) [map3 rgb2l (band im 0) (band im 1) (band im 2)] []
  | Mode_P =>
      mkImage Mode_L (size im)
        [map (fun i => let c := getcolour (palette im) i in
                       rgb2l (red c) (green c) (blue c)) (band im 0)] []
  end.

(** [image.convert('RGB')] *)
Definition convert_RGB (im : Image) : Image :=
  match mode im with
  | Mode_L => mkImage Mode_RGB (size im) [band im 0; band im 0; band im 0] []
  | Mode_RGB => im
  | Mode_RGBA => mkImage Mode_RGB (size im) [band im 0; band im 1; band im 2] []
  | Mode_P =>
      mkImage Mode_RGB (size im)
        [map (fun i => red (getcolour (palette im) i)) (band im 0);
         map (fun i => green (getcolour (palette im) i)) (band im 0);
         map (fun i => blue (getcolour (palette im) i)) (band im 0)] []
  end.

(** *** [Image.histogram] and [Image.point] *)

(** The 256 sample values, in order. *)
Definition levels : list Z := map Z.of_nat (seq 0 256).

Definition count (l : Z) (b : list Z) : Z :=
  Z.of_nat (List.length (filter (Z.eqb l) b)).

(** 256 counts per band, the bands one after the other. *)
Definition band_histogram (b : list Z) : list Z := map (fun l => count l b) levels.
Definition histogram (im : Image) : list Z := flat_map band_histogram (bands im).

(** [image.point(lut)]: band [k] is mapped through entries [256k .. 256k+255]
    of the table. *)
Definition point_band (lut : list Z) (k : nat) (b : list Z) : list Z :=
  map (fun v => nth (256 * k + Z.to_nat v) lut 0) b.

Fixpoint point_bands (lut : list Z) (k : nat) (bs : list (list Z)) : list (list Z) :=
  match bs with
  | [] => []
  | b :: bs' => point_band lut k b :: point_bands lut (S k) bs'
  end.

Definition point (lut : list Z) (im : Image) : Image :=
  mkImage (mode im) (size im) (point_bands lut 0 (bands im)) (palette im).

(** ** Errors and standard output *)
Inductive Exception :=
| FileNotFoundError         (* no file at the input path, no directory for the output *)
| UnidentifiedImageError    (* the file is not an image *)
| PermissionError           (* the output path may not be written *)
| ValueError                (* the extension of the output path names no format *)
| ZeroDivisionError
| NotImplementedError       (* ImageOps on a palette image *)
| OSError                   (* ImageOps on any other unsupported mode *)
.

(** The lines the function prints. *)
Inductive Line :=
| AverageBrightness (a : Q)
| DetectedDarkMode
| AlreadyLightMode
| Saved (output_path : string).

Inductive Result (A : Type) :=
| Ok (a : A)
| Raise (e : Exception).
Arguments Ok {A} a.
Arguments Raise {A} e.

(** A computation prints lines and then returns or raises. *)
Definition Py (A : Type) : Type := list Line * Result A.

Definition ret {A} (a : A) : Py A := ([], Ok a).
Definition raise {A} (e : Exception) : Py A := ([], Raise e).
Definition print (l : Line) : Py unit := ([l], Ok tt).
Definition bind {A B} (m : Py A) (k : A -> Py B) : Py B :=
  match m with
  | (out, Ok a) => let '(out', r) := k a in (out ++ out', r)
  | (out, Raise e) => (out, Raise e)
  end.

Notation "x <- m ;; k" := (bind m (fun x => k))
  (at level 61, m at next level, right associativity).
Notation "m ;;; k" := (bind m (fun _ => k))
  (at level 61, right associativity).

Definition stdout {A} (m : Py A) : list Line := fst m.
Definition result {A} (m : Py A) : Result A := snd m.

(** ** Pillow's [ImageOps] *)
Module ImageOps.

(** [_lut]: the table is applied to greyscale and RGB images only; a
    256-entry table serves all three bands of an RGB image. *)
Definition _lut (image : Image) (lut : list Z) : Py Image :=
  match mode image with
  | Mode_P => raise NotImplementedError
  | Mode_L => ret (point lut image)
  | Mode_RGB =>
      ret (point (if (List.length lut =? 256)%nat then lut ++ lut ++ lut else lut) image)
  | Mode_RGBA => raise OSError
  end.

(** [invert]: the table [255, 254, ..., 0]. *)
Definition invert (image : Image) : Py Image := _lut image (rev levels).

(** The lowest and the highest level of a histogram layer that is present;
    255 and 0 when the layer is empty, where the two loops run to their
    end. *)
Definition lowest (h : list Z) : Z :=
  match find (fun l => negb (nth (Z.to_nat l) h 0 =? 0)) levels with
  | Some lo => lo
  | None => 255
  end.

Definition highest (h : list Z) : Z :=
  match find (fun l => negb (nth (Z.to_nat l) h 0 =? 0)) (rev levels) with
  | Some hi => hi
  | None => 0
  end.

Definition clip (ix : Z) : Z :=
  if ix <? 0 then 0 else if 255 <? ix then 255 else ix.

(** The table of one layer: the identity when the layer has at most one
    level, else the linear map taking [lo] to 0 and [hi] to 255, computed
    in floats and truncated. *)
Definition layer_lut (h : list Z) : list Z :=
  let lo := lowest h in
  let hi := highest h in
  if hi <=? lo then levels
  else
    let scale := Float64.div 255 (Float64.of_int (hi - lo)) in
    let offset := Float64.mul (Float64.of_int (- lo)) scale in
    map (fun ix =>
           clip (Float64.to_int
                   (Float64.add (Float64.mul (Float64.of_int ix) scale) offset)))
        levels.

(** The layers [histogram[layer : layer + 256]] for
    [layer in range(0, len(histogram), 256)]. *)
Definition layers (hist : list Z) : list (list Z) :=
  map (fun k => firstn 256 (skipn (256 * k) hist))
      (seq 0 ((List.length hist + 255) / 256)).

(** [autocontrast] with its default arguments (no cutoff, nothing ignored,
    no mask, tone not preserved). *)
Definition autocontrast (image : Image) : Py Image :=
  _lut image (flat_map layer_lut (layers (histogram image))).

End ImageOps.

(** ** The file system

    A file is described by the image it holds: the image a decoder reads
    from it, and for a file that [save] writes, the image that was handed to
    the encoder. *)
Inductive File :=
| ImageFile (image : Image)     (* holds this image *)
| OtherFile.                    (* not an image *)

Record World := mkWorld {
  files : string -> option File;
  writable : string -> bool;        (* can an image file be produced there *)
  save_error : string -> Exception  (* what [save] raises there when it cannot:
                                       [ValueError] for an unknown extension,
                                       [FileNotFoundError], [PermissionError] *)
}.


(** The number of pixels of an image. *)
Definition pixel_count (im : Image) : nat := fst (size im) * snd (size im).

(** [Image.open].  A file whose width or height is not positive is refused
    like a file that is no image ([ImageFile.__init__]). *)
Definition Image_open (w : World) (path : string) : Py Image :=
  match files w path with
  | None => raise FileNotFoundError
  | Some OtherFile => raise UnidentifiedImageError
  | Some (ImageFile image) =>
      if (pixel_count image =? 0)%nat then raise UnidentifiedImageError
      else ret image
  end.

(** [image.save].  (The images this function is called with have mode L or
    RGB, which the encoders take.) *)
Definition Image_save (w : World) (image : Image) (path : string) : Py World :=
  if writable w path
  then ret (mkWorld (fun p => if String.eqb p path then Some (ImageFile image)
                              else files w p)
                    (writable w) (save_error w))
  else raise (save_error w path).

(** ** [imageContrast.py] *)

(** [sum(xs)] *)
Definition sum (xs : list Z) : Z := fold_left Z.add xs 0.

(** [enumerate(xs)] *)
Definition enumerate (xs : list Z) : list (Z * Z) :=
  combine (map Z.of_nat (seq 0 (List.length xs))) xs.

(** [a / b] on integers: the correctly rounded quotient. *)
Definition true_div (a b : Z) : Py Q :=
  if b =? 0 then raise ZeroDivisionError
  else ret (Float64.div (inject_Z a) (inject_Z b)).

Definition Qltb (x y : Q) : bool :=
  match (x ?= y)%Q with Lt => true | _ => false end.

(** Lines 10 to 16: the mean grey level of the image.  (Line 13 binds
    [brightness] and [scale] to the length of the histogram; neither is
    read.) *)
Definition average_brightness (image : Image) : Py Q :=
  let gray := convert_L image in
  let histogram := histogram gray in
  let pixels := sum histogram in
  let total_brightness := sum (map (fun '(i, w) => i * w) (enumerate histogram)) in
  true_div total_brightness pixels.

(** Lines 20 to 25: a dark image is inverted, a light one is left alone. *)
Definition dark_mode_step (image : Image) (average_brightness : Q) : Py Image :=
  if Qltb average_brightness 128 then
    print DetectedDarkMode ;;;
    ImageOps.invert (convert_RGB image)
  else
    print AlreadyLightMode ;;;
    ret image.

(** The image handed to [autocontrast]: lines 5 to 25 on an opened image. *)
Definition before_contrast (image : Image) : Py Image :=
  average_brightness <- average_brightness image ;;
  print (AverageBrightness average_brightness) ;;;
  dark_mode_step image average_brightness.

Definition optimize_image_for_ocr (w : World) (image_path output_path : string)
    : Py World :=
  image <- Image_open w image_path ;;
  image <- before_contrast image ;;
  image <- ImageOps.autocontrast image ;;
  w' <- Image_save w image output_path ;;
  print (Saved output_path) ;;;
  ret w'.

(** Line 36: the module calls the function once, on fixed paths. *)
Definition main (w : World) : Py World :=
  optimize_image_for_ocr w "your_screenshot.png" "optimized_screenshot.png".

(** ** Python values and pydantic models *)

#[local] Set Warnings "-register-all".

(** The four classes of [schemas.py]. *)
Inductive Class := Column | Table | Relationship | DatabaseSchema.

Definition Class_eqb (a b : Class) : bool :=
  match a, b with
  | Column, Column | Table, Table | Relationship, Relationship
  | DatabaseSchema, DatabaseSchema => true
  | _, _ => false
  end.

(** The values a constructor can be called with.  An instance of a model
    class is its class and its [__dict__]. *)
Inductive Value :=
| VNone
| VBool (b : bool)
| VInt (z : Z)
| VStr (s : string)
| VList (items : list Value)
| VDict (items : list (string * Value))
| VModel (cls : Class) (dict : list (string * Value)).

(** Keyword arguments, and a [__dict__]: names with values, in order. *)
Definition Dict := list (string * Value).

Fixpoint get (name : string) (d : Dict) : option Value :=
  match d with
  | [] => None
  | (k, v) :: d' => if String.eqb k name then Some v else get name d'
  end.

Fixpoint set (name : string) (v : Value) (d : Dict) : Dict :=
  match d with
  | [] => [(name, v)]
  | (k, x) :: d' =>
      if String.eqb k name then (k, v) :: d' else (k, x) :: set name v d'
  end.

(** One entry of a pydantic [ValidationError]: where, and what was wrong. *)
Inductive LocItem := Attr (name : string) | Index (i : nat).

Inductive ErrorType :=
| missing
| string_type
| bool_type
| bool_parsing
| list_type
| model_type (cls : Class).

Record ErrorDetails := mkError {
  loc : list LocItem;
  type : ErrorType
}.

Inductive Validated (A : Type) :=
| Valid (a : A)
| ValidationError (errors : list ErrorDetails).
Arguments Valid {A} a.
Arguments ValidationError {A} errors.

Definition Validator := Value -> Validated Value.

Definition under (l : LocItem) (e : ErrorDetails) : ErrorDetails :=
  mkError (l :: loc e) (type e).

(** The annotations of [schemas.py]: [str], [bool] and [List[cls]]. *)
Inductive Annotation := Str | Bool | ListOf (cls : Class).

(** A declared field: its name, its annotation with the validator that
    pydantic builds for it, and its default when it has one. *)
Record FieldInfo := mkField {
  field_name : string;
  field_annotation : Annotation;
  field_validator : Validator;
  field_default : option Value
}.

(** Validation of the keyword arguments against the declared fields, in
    declaration order: all errors are collected; arguments that name no
    field are ignored. *)
Fixpoint validate_fields (fields : list FieldInfo) (kwargs : Dict)
    : list ErrorDetails * Dict :=
  match fields with
  | [] => ([], [])
  | f :: fields' =>
      let '(errors, values) := validate_fields fields' kwargs in
      match get (field_name f) kwargs with
      | None =>
          match field_default f with
          | Some d => (errors, (field_name f, d) :: values)
          | None => (mkError [Attr (field_name f)] missing :: errors, values)
          end
      | Some v =>
          match field_validator f v with
          | Valid v' => (errors, (field_name f, v') :: values)
          | ValidationError es =>
              (map (under (Attr (field_name f))) es ++ errors, values)
          end
      end
  end.

(** A call of a model class with keyword arguments, for a class with the
    given fields. *)
Definition init (cls : Class) (fields : list FieldInfo) (kwargs : Dict)
    : Validated Value :=
  match validate_fields fields kwargs with
  | ([], values) => Valid (VModel cls values)
  | (errors, _) => ValidationError errors
  end.

(** A field annotated with a model class takes an instance of the class as
    it is, and a dict as the keyword arguments of the class. *)
Definition model_validator (cls : Class) (fields : list FieldInfo) : Validator :=
  fun v =>
    match v with
    | VModel c _ =>
        if Class_eqb c cls then Valid v
        else ValidationError [mkError [] (model_type cls)]
    | VDict kwargs => init cls fields kwargs
    | _ => ValidationError [mkError [] (model_type cls)]
    end.

(** [List[T]]: a list whose items are validated one by one. *)
Fixpoint validate_items (item : Validator) (i : nat) (items : list Value)
    : list ErrorDetails * list Value :=
  match items with
  | [] => ([], [])
  | v :: items' =>
      let '(errors, values) := validate_items item (S i) items' in
      match item v with
      | Valid v' => (errors, v' :: values)
      | ValidationError es => (map (under (Index i)) es ++ errors, values)
      end
  end.

Definition list_validator (item : Validator) : Validator :=
  fun v =>
    match v with
    | VList items =>
        match validate_items item 0 items with
        | ([], values) => Valid (VList values)
        | (errors, _) => ValidationError errors
        end
    | _ => ValidationError [mkError [] list_type]
    end.

(** *** The validators of [str] and [bool]

    pydantic 2 validates the arguments of a constructor in its lax mode. *)

(** A [str] field takes a string and nothing else. *)
Definition str_validator : Validator :=
  fun v =>
    match v with
    | VStr _ => Valid v
    | _ => ValidationError [mkError [] string_type]
    end.

(** [str.lower] on ASCII letters. *)
Definition lower_ascii (c : ascii) : ascii :=
  let n := N_of_ascii c in
  if (65 <=? n)%N && (n <=? 90)%N then ascii_of_N (n + 32) else c.

Fixpoint lower (s : string) : string :=
  match s with
  | EmptyString => EmptyString
  | String c s' => String (lower_ascii c) (lower s')
  end.

Definition false_words : list string := ["0"; "f"; "n"; "no"; "off"; "false"].
Definition true_words : list string := ["1"; "t"; "y"; "on"; "yes"; "true"].

Definition member (s : string) (words : list string) : bool :=
  existsb (String.eqb s) words.

(** A [bool] field takes a bool, the integers 0 and 1, and the words above in
    any case.  Another integer or string cannot be parsed; a value of any
    other type has the wrong type. *)
Definition bool_validator : Validator :=
  fun v =>
    match v with
    | VBool _ => Valid v
    | VInt 0 => Valid (VBool false)
    | VInt 1 => Valid (VBool true)
    | VInt _ => ValidationError [mkError [] bool_parsing]
    | VStr s =>
        if member (lower s) false_words then Valid (VBool false)
        else if member (lower s) true_words then Valid (VBool true)
        else ValidationError [mkError [] bool_parsing]
    | _ => ValidationError [mkError [] bool_type]
    end.

(** *** [schemas.py], class by class *)

Definition str_field (name : string) : FieldInfo :=
  mkField name Str str_validator None.

Definition bool_field (name : string) (default : bool) : FieldInfo :=
  mkField name Bool bool_validator (Some (VBool default)).

Definition list_field (name : string) (cls : Class) (fields : list FieldInfo)
    : FieldInfo :=
  mkField name (ListOf cls) (list_validator (model_validator cls fields)) None.

Definition Column_fields : list FieldInfo :=
  [ str_field "name";
    str_field "type";
    bool_field "is_primary_key" false;
    bool_field "is_foreign_key" false ].

Definition Table_fields : list FieldInfo :=
  [ str_field "name";
    list_field "columns" Column Column_fields ].

Definition Relationship_fields : list FieldInfo :=
  [ str_field "from_table";
    str_field "from_column";
    str_field "to_table";
    str_field "to_column";
    str_field "type" ].

Definition DatabaseSchema_fields : list FieldInfo :=
  [ list_field "tables" Table Table_fields;
    list_field "relationships" Relationship Relationship_fields ].

Definition model_fields (cls : Class) : list FieldInfo :=
  match cls with
  | Column => Column_fields
  | Table => Table_fields
  | Relationship => Relationship_fields
  | DatabaseSchema => DatabaseSchema_fields
  end.

(** [Column(...)], [Table(...)], [Relationship(...)], [DatabaseSchema(...)] *)
Definition new (cls : Class) (kwargs : Dict) : Validated Value :=
  init cls (model_fields cls) kwargs.

(** *** Attributes of an instance

    No class sets a model configuration, so an instance is not frozen and
    assignments are not validated. *)

(** [obj.name], for an attribute of the instance. *)
Definition getattr (obj : Value) (name : string) : option Value :=
  match obj with
  | VModel _ dict => get name dict
  | _ => None
  end.

Definition declared (cls : Class) (name : string) : bool :=
  existsb (fun f => String.eqb (field_name f) name) (model_fields cls).

Fixpoint remove (name : string) (d : Dict) : Dict :=
  match d with
  | [] => []
  | (k, x) :: d' => if String.eqb k name then d' else (k, x) :: remove name d'
  end.

Section Attributes.

(** The interpreter's [object.__setattr__] and [object.__delattr__] on a
    model instance; [None] when they raise. *)
Variable object_setattr : Value -> string -> Value -> option Value.
Variable object_delattr : Value -> string -> option Value.

(** [obj.name = v], [BaseModel.__setattr__]: a name that starts with an
    underscore is no field name and goes to the interpreter; the value of
    a declared field is stored in [__dict__]; any other name is refused
    with [ValueError]. *)
Definition setattr (obj : Value) (name : string) (v : Value) : option Value :=
  match obj with
  | VModel cls dict =>
      if String.prefix "_" name then object_setattr obj name v
      else if declared cls name then Some (VModel cls (set name v dict))
      else None
  | _ => None
  end.

(** [del obj.name], [BaseModel.__delattr__]: every name goes to the
    interpreter, which for a declared field removes it from [__dict__], and
    raises [AttributeError] when it is not there. *)
Definition delattr (obj : Value) (name : string) : option Value :=
  match obj with
  | VModel cls dict =>
      if declared cls name then
        match get name dict with
        | Some _ => Some (VModel cls (remove name dict))
        | None => None
        end
      else object_delattr obj name
  | _ => None
  end.

End Attributes.

(** ** Vocabulary of the statements *)

(** The grey levels of the pixels, as [image.convert('L')] gives them. *)
Definition grey (im : Image) : list Z := band (convert_L im) 0.

(** Every pixel has grey level [v], and there is a pixel. *)
Definition uniform_grey (v : Z) (im : Image) : bool :=
  negb (List.length (grey im) =? 0)%nat && forallb (Z.eqb v) (grey im).

(** The image with every sample [v] replaced by [255 - v]. *)
Definition negative (im : Image) : Image :=
  mkImage (mode im) (size im) (map (map (fun v => 255 - v)) (bands im)) (palette im).

(** Written after the words of the data model: the weighted mean of a
    256-bucket histogram, [sum(level * count_of_level for level in 0..255) /
    total_pixel_count], as an exact rational. *)
Definition weighted_mean (hist : list Z) : Q :=
  (inject_Z (sum (map (fun level => level * nth (Z.to_nat level) hist 0)%Z levels))
   / inject_Z (sum hist))%Q.

(** The function took the inversion branch: it printed that it did. *)
Definition inversion_taken {A} (run : Py A) : Prop := In DetectedDarkMode (stdout run).

(** Half of the pixels have grey level 0, the other half 255, and there is a
    pixel. *)
Definition half_black_half_white (im : Image) : bool :=
  forallb (fun v => (v =? 0) || (v =? 255)) (grey im)
  && (count 0 (grey im) =? count 255 (grey im))
  && negb (List.length (grey im) =? 0)%nat.


(** What [autocontrast] does to one band: the band mapped through the table
    of its own histogram. *)
Definition stretch (b : list Z) : list Z :=
  map (fun v => nth (Z.to_nat v) (ImageOps.layer_lut (band_histogram b)) 0) b.

(** Every sample of every band is 255, and there is a pixel. *)
Definition all_white (im : Image) : bool :=
  negb (pixel_count im =? 0)%nat && forallb (forallb (Z.eqb 255)) (bands im).

(** The file system after [image] was written at [path]. *)
Definition saved (w : World) (path : string) (image : Image) : World :=
  mkWorld (fun p => if String.eqb p path then Some (ImageFile image) else files w p)
          (writable w) (save_error w).

(** Sample inputs. *)
Definition white_RGBA : Image :=
  mkImage Mode_RGBA (1, 1)%nat [[255]; [255]; [255]; [255]] [].

Definition black_on_white_RGBA : Image :=
  mkImage Mode_RGBA (2, 1)%nat [[255; 0]; [255; 0]; [255; 0]; [255; 255]] [].

Definition checker_L : Image := mkImage Mode_L (2, 1)%nat [[0; 255]] [].

Definition white_L : Image := mkImage Mode_L (2, 1)%nat [[255; 255]] [].

Definition sample_RGB : Image :=
  mkImage Mode_RGB (2, 1)%nat [[0; 255]; [10; 200]; [255; 0]] [].

Definition empty_L : Image := mkImage Mode_L (0, 0)%nat [[]] [].

(** A directory that holds [image] as [your_screenshot.png] and accepts new
    files. *)
Definition folder (image : Image) : World :=
  mkWorld (fun p => if String.eqb p "your_screenshot.png" then Some (ImageFile image)
                    else None)
          (fun _ => true) (fun _ => PermissionError).

(** [isinstance(v, cls)] for a model class. *)
Definition is_instance (cls : Class) (v : Value) : bool :=
  match v with
  | VModel c _ => Class_eqb c cls
  | _ => false
  end.

(** The keyword arguments satisfy a declared field: a value the field's
    validator accepts, or no value where the field has a default. *)
Definition satisfied (kwargs : Dict) (f : FieldInfo) : Prop :=
  match get (field_name f) kwargs with
  | Some v => exists v', field_validator f v = Valid v'
  | None => field_default f <> None
  end.

(** The error [e] reports that the required field [f] is missing, or that
    the validator of [f] refused the value given for it. *)
Definition reports (kwargs : Dict) (f : FieldInfo) (e : ErrorDetails) : Prop :=
  (get (field_name f) kwargs = None /\ field_default f = None
   /\ e = mkError [Attr (field_name f)] missing)
  \/ (exists v es e', get (field_name f) kwargs = Some v
                      /\ field_validator f v = ValidationError es
                      /\ In e' es /\ e = under (Attr (field_name f)) e').




(** The reading of C9 on an image without pixels: the function raises
    [ZeroDivisionError]. *)
Definition zero_pixels_raise_zero_division : Prop :=
  forall w image_path output_path im,
    files w image_path = Some (ImageFile im) -> well_formed im = true ->
    pixel_count im = 0%nat ->
    result (optimize_image_for_ocr w image_path output_path) = Raise ZeroDivisionError.

(** The reading of "immutable after construction": whatever is assigned to
    a constructed record, every field still reads as it did. *)
Definition immutable_after_construction
    (object_setattr : Value -> string -> Value -> option Value) : Prop :=
  forall cls kwargs obj name v obj',
    new cls kwargs = Valid obj ->
    setattr object_setattr obj name v = Some obj' ->
    forall field, getattr obj' field = getattr obj field.

(** A relationship between two tables that no schema has to contain. *)
Definition dangling : Value :=
  VModel Relationship
    [("from_table", VStr "orders"); ("from_column", VStr "user_id");
     ("to_table", VStr "ghost"); ("to_column", VStr "id"); ("type", VStr "1:N")].

(** A band of a well-formed image: a byte for each pixel. *)
Definition ok_band (im : Image) (b : list Z) : Prop :=
  List.length b = (fst (size im) * snd (size im))%nat /\ forallb is_byte b = true.

(** The level [l] occurs in the histogram layer [h]. *)
Definition present (h : list Z) (l : Z) : bool := negb (nth (Z.to_nat l) h 0 =? 0).

(** A refusing validator reports at least one error. *)
Definition reporting (v : Validator) : Prop :=
  forall x es, v x = ValidationError es -> es <> [].

(** * Facts *)

Example round_half : Float64.round (255 # 2) = (255 # 2)%Q.
Proof. vm_compute. reflexivity. Qed.

Example round_third : Float64.round (1 # 3) = (6004799503160661 # 18014398509481984)%Q.
Proof. vm_compute. reflexivity. Qed.

(** ** Float rounding *)

Module Float64Facts.
Import Float64.
Open Scope Q_scope.

Lemma two_neq_0 : ~ 2 == 0.
Proof. discriminate. Qed.

Lemma pow2_pos (e : Z) : 0 < 2 ^ e.
Proof. apply Qpower_0_lt. reflexivity. Qed.

Lemma pow2_inject (n : Z) : (0 <= n)%Z -> inject_Z (2 ^ n) == 2 ^ n.
Proof. intros Hn. rewrite Zpower_Qpower by assumption. reflexivity. Qed.

Lemma rne_inject (n : Z) : rne (inject_Z n) = n.
Proof.
  unfold rne. rewrite Qfloor_Z.
  replace (inject_Z n - inject_Z n ?= 1 # 2) with Lt; [reflexivity|].
  symmetry. apply -> Qlt_alt. lra.
Qed.

Lemma rne_floor (x : Q) : (Qfloor x <= rne x <= Qfloor x + 1)%Z.
Proof.
  unfold rne. destruct (x - inject_Z (Qfloor x) ?= 1 # 2); [destruct (Z.even _)| |]; lia.
Qed.

Ltac cmp_to_prop :=
  repeat match goal with
  | H : (_ ?= _) = Eq |- _ => apply Qeq_alt in H
  | H : (_ ?= _) = Lt |- _ => apply Qlt_alt in H
  | H : (_ ?= _) = Gt |- _ => apply Qgt_alt in H
  end.

Lemma rne_mono (x y : Q) : x <= y -> (rne x <= rne y)%Z.
Proof.
  intros Hxy. pose proof (Qfloor_resp_le _ _ Hxy) as Hf.
  destruct (Z.eq_dec (Qfloor x) (Qfloor y)) as [E|N].
  - unfold rne. rewrite <- E.
    destruct (x - inject_Z (Qfloor x) ?= 1 # 2) eqn:Cx;
    destruct (y - inject_Z (Qfloor x) ?= 1 # 2) eqn:Cy;
    try (destruct (Z.even (Qfloor x))); try lia; exfalso; cmp_to_prop; lra.
  - pose proof (rne_floor x). pose proof (rne_floor y). lia.
Qed.

Lemma rne_le (x : Q) (n : Z) : x <= inject_Z n -> (rne x <= n)%Z.
Proof. intros H. rewrite <- (rne_inject n). now apply rne_mono. Qed.

Lemma rne_ge (x : Q) (n : Z) : inject_Z n <= x -> (n <= rne x)%Z.
Proof. intros H. rewrite <- (rne_inject n). now apply rne_mono. Qed.

(** The binade of a positive rational. *)
Lemma Qmake_mult_den (a : Z) (b : positive) : (a # b) * inject_Z (Zpos b) == inject_Z a.
Proof. unfold Qeq, inject_Z. simpl. lia. Qed.

Lemma log2_bounds (a : Z) :
  (0 < a)%Z -> 2 ^ (Z.log2 a) <= inject_Z a /\ inject_Z a < 2 ^ (Z.log2 a + 1).
Proof.
  intros Ha. destruct (Z.log2_spec a Ha) as [H1 H2].
  pose proof (Z.log2_nonneg a) as Hn.
  rewrite <- !pow2_inject by lia. split.
  - rewrite <- Zle_Qle. exact H1.
  - rewrite <- Zlt_Qlt. replace (Z.log2 a + 1)%Z with (Z.succ (Z.log2 a)) by lia. exact H2.
Qed.

Lemma floor_log2_spec (q : Q) :
  0 < q -> 2 ^ floor_log2 q <= q /\ q < 2 ^ (floor_log2 q + 1).
Proof.
  intros Hq. destruct q as [a b]. unfold floor_log2. cbn [Qnum Qden].
  assert (Ha : (0 < a)%Z) by (unfold Qlt in Hq; simpl in Hq; lia).
  destruct (log2_bounds a Ha) as [Ha1 Ha2].
  destruct (log2_bounds (Zpos b) eq_refl) as [Hb1 Hb2].
  pose proof (Qmake_mult_den a b) as Hab.
  set (la := Z.log2 a) in *. set (lb := Z.log2 (Zpos b)) in *.
  set (d := (la - lb)%Z).
  assert (Hd1 : 2 ^ (d + 1) * 2 ^ lb == 2 ^ (la + 1)).
  { rewrite <- Qpower_plus by apply two_neq_0. replace (d + 1 + lb)%Z with (la + 1)%Z by (unfold d; lia). reflexivity. }
  assert (Hd2 : 2 ^ (d - 1) * 2 ^ (lb + 1) == 2 ^ la).
  { rewrite <- Qpower_plus by apply two_neq_0. replace (d - 1 + (lb + 1))%Z with la by (unfold d; lia). reflexivity. }
  pose proof (pow2_pos lb) as Plb. pose proof (pow2_pos (lb + 1)) as Plb1.
  assert (Hbpos : 0 < inject_Z (Zpos b)) by (rewrite <- (Zlt_Qlt 0); lia).
  destruct (Qle_bool (2 ^ d) (a # b)) eqn:C.
  - apply Qle_bool_iff in C. split; [exact C|].
    (* q * 2^lb <= q * b = a < 2^(la+1) = 2^(d+1) * 2^lb *)
    apply (Qmult_lt_r _ _ (2 ^ lb) Plb). rewrite Hd1.
    apply Qle_lt_trans with ((a # b) * inject_Z (Zpos b)); [|rewrite Hab; exact Ha2].
    apply Qmult_le_l; [exact Hq|exact Hb1].
  - assert (C' : a # b < 2 ^ d).
    { apply Qnot_le_lt. intros H. apply Qle_bool_iff in H. congruence. }
    replace (d - 1 + 1)%Z with d by lia. split; [|exact C'].
    apply (Qmult_le_r _ _ (2 ^ (lb + 1)) Plb1). rewrite Hd2.
    apply Qle_trans with ((a # b) * inject_Z (Zpos b)); [rewrite Hab; exact Ha1|].
    apply Qmult_le_l; [exact Hq|]. apply Qlt_le_weak. exact Hb2.
Qed.

Lemma scaled_mult (q : Q) (e : Z) : q / 2 ^ e * 2 ^ e == q.
Proof. field. apply Qpower_not_0. apply two_neq_0. Qed.

Lemma scaled_bounds (q : Q) :
  0 < q ->
  let x := q / 2 ^ (floor_log2 q - 52) in
  inject_Z (2 ^ 52) <= x /\ x <= inject_Z (2 ^ 53).
Proof.
  intros Hq x. destruct (floor_log2_spec q Hq) as [H1 H2].
  set (k := floor_log2 q) in *. set (e := (k - 52)%Z) in *.
  pose proof (pow2_pos e) as Pe.
  rewrite !pow2_inject by lia.
  assert (E1 : 2 ^ 52 * 2 ^ e == 2 ^ k).
  { rewrite <- Qpower_plus by apply two_neq_0. replace (52 + e)%Z with k by (unfold e; lia). reflexivity. }
  assert (E2 : 2 ^ 53 * 2 ^ e == 2 ^ (k + 1)).
  { rewrite <- Qpower_plus by apply two_neq_0. replace (53 + e)%Z with (k + 1)%Z by (unfold e; lia). reflexivity. }
  split.
  - apply (Qmult_le_r _ _ (2 ^ e) Pe). unfold x. rewrite scaled_mult, E1. exact H1.
  - apply (Qmult_le_r _ _ (2 ^ e) Pe). unfold x. rewrite scaled_mult, E2. apply Qlt_le_weak. exact H2.
Qed.

Lemma round_pos_bounds (q : Q) :
  0 < q -> 2 ^ floor_log2 q <= round_pos q /\ round_pos q <= 2 ^ (floor_log2 q + 1).
Proof.
  intros Hq. destruct (scaled_bounds q Hq) as [H1 H2]. unfold round_pos.
  set (k := floor_log2 q) in *. set (e := (k - 52)%Z) in *.
  pose proof (pow2_pos e) as Pe.
  apply rne_ge in H1. apply rne_le in H2.
  rewrite Zle_Qle in H1, H2. rewrite !pow2_inject in H1, H2 by lia.
  split.
  - apply Qle_trans with (2 ^ 52 * 2 ^ e).
    + rewrite <- Qpower_plus by apply two_neq_0. replace (52 + e)%Z with k by (unfold e; lia). apply Qle_refl.
    + apply Qmult_le_compat_r; [exact H1|apply Qlt_le_weak; exact Pe].
  - apply Qle_trans with (2 ^ 53 * 2 ^ e).
    + apply Qmult_le_compat_r; [exact H2|apply Qlt_le_weak; exact Pe].
    + rewrite <- Qpower_plus by apply two_neq_0. replace (53 + e)%Z with (k + 1)%Z by (unfold e; lia). apply Qle_refl.
Qed.

Lemma round_pos_mono (x y : Q) : 0 < x -> x <= y -> round_pos x <= round_pos y.
Proof.
  intros Hx Hxy. assert (Hy : 0 < y) by (eapply Qlt_le_trans; eassumption).
  destruct (floor_log2_spec x Hx) as [X1 X2]. destruct (floor_log2_spec y Hy) as [Y1 Y2].
  assert (Hk : (floor_log2 x <= floor_log2 y)%Z).
  { assert (H : 2 ^ floor_log2 x < 2 ^ (floor_log2 y + 1)).
    { eapply Qle_lt_trans; [exact X1|]. eapply Qle_lt_trans; [exact Hxy|exact Y2]. }
    apply Qpower_lt_compat_l_inv in H; [lia|reflexivity]. }
  destruct (Z.eq_dec (floor_log2 x) (floor_log2 y)) as [E|N].
  - unfold round_pos. rewrite E. set (e := (floor_log2 y - 52)%Z).
    pose proof (pow2_pos e) as Pe.
    apply Qmult_le_compat_r; [|apply Qlt_le_weak; exact Pe].
    rewrite <- Zle_Qle. apply rne_mono.
    apply Qmult_le_compat_r; [exact Hxy|]. apply Qlt_le_weak. apply Qinv_lt_0_compat. exact Pe.
  - destruct (round_pos_bounds x Hx) as [_ Bx]. destruct (round_pos_bounds y Hy) as [By _].
    eapply Qle_trans; [exact Bx|]. eapply Qle_trans; [|exact By].
    apply Qpower_le_compat_l; [lia|discriminate].
Qed.

Lemma round_pos_pos (x : Q) : 0 < x -> 0 < round_pos x.
Proof.
  intros Hx. destruct (round_pos_bounds x Hx) as [B _].
  eapply Qlt_le_trans; [apply pow2_pos|exact B].
Qed.

(** Equal rationals round to the same term. *)
Lemma round_comp (x y : Q) : x == y -> round x = round y.
Proof. intros H. unfold round. rewrite (Qred_complete x y H). reflexivity. Qed.

Lemma round_nonneg (x : Q) : 0 <= x -> 0 <= round x.
Proof.
  intros Hx. unfold round. pose proof (Qred_correct x) as R.
  destruct (Qred x ?= 0) eqn:C; cmp_to_prop.
  - apply Qle_refl.
  - exfalso. lra.
  - rewrite Qred_correct. apply Qlt_le_weak. apply round_pos_pos. exact C.
Qed.

(** Rounding is monotone on the non-negative rationals. *)
Lemma round_mono (x y : Q) : 0 <= x -> x <= y -> round x <= round y.
Proof.
  intros Hx Hxy. unfold round.
  pose proof (Qred_correct x) as Rx. pose proof (Qred_correct y) as Ry.
  destruct (Qred x ?= 0) eqn:Cx; destruct (Qred y ?= 0) eqn:Cy; cmp_to_prop;
    try (exfalso; lra).
  - apply Qle_refl.
  - rewrite Qred_correct. apply Qlt_le_weak. apply round_pos_pos. exact Cy.
  - rewrite (Qred_correct (round_pos (Qred x))), (Qred_correct (round_pos (Qred y))).
    apply round_pos_mono; [exact Cx|lra].
Qed.

Lemma round_0 : round 0 = 0.
Proof. reflexivity. Qed.

Lemma round_255 : round 255 = 255.
Proof. vm_compute. reflexivity. Qed.

(** A float lies in a closed interval with float ends when the exact
    value does. *)
Lemma round_between (lo hi x : Q) :
  0 <= lo -> round lo = lo -> round hi = hi -> lo <= x <= hi -> lo <= round x <= hi.
Proof.
  intros Hlo Rlo Rhi [H1 H2]. split.
  - rewrite <- Rlo. apply round_mono; assumption.
  - rewrite <- Rhi. apply round_mono; [lra|assumption].
Qed.

End Float64Facts.

Import Float64Facts.
Open Scope Z_scope.

(** ** Sums and histograms *)

Lemma fold_add_acc (xs : list Z) (a : Z) : fold_left Z.add xs a = a + fold_left Z.add xs 0.
Proof.
  revert a. induction xs as [|x xs IH]; intros a; simpl; [lia|].
  rewrite (IH (a + x)), (IH x). lia.
Qed.

Lemma sum_cons (x : Z) (xs : list Z) : sum (x :: xs) = x + sum xs.
Proof. unfold sum. simpl. apply fold_add_acc. Qed.

Lemma sum_map_add {A} (f g : A -> Z) (xs : list A) :
  sum (map (fun x => f x + g x) xs) = sum (map f xs) + sum (map g xs).
Proof. induction xs as [|x xs IH]; simpl; [reflexivity|]. rewrite !sum_cons, IH. lia. Qed.

Lemma sum_map_ext {A} (f g : A -> Z) (xs : list A) :
  (forall x, In x xs -> f x = g x) -> sum (map f xs) = sum (map g xs).
Proof.
  intros H. induction xs as [|x xs IH]; simpl; [reflexivity|].
  rewrite !sum_cons. rewrite IH by (intros; apply H; simpl; auto).
  rewrite (H x) by (simpl; auto). reflexivity.
Qed.

Lemma sum_map_zero {A} (xs : list A) : sum (map (fun _ => 0) xs) = 0.
Proof. induction xs as [|x xs IH]; [reflexivity|]. cbn [map]. rewrite sum_cons, IH. reflexivity. Qed.

(** Exactly one level matches a byte. *)
Lemma sum_indicator (c v : Z) (n s : nat) :
  sum (map (fun l => if l =? v then c else 0) (map Z.of_nat (seq s n)))
  = if (Z.of_nat s <=? v) && (v <? Z.of_nat (s + n)) then c else 0.
Proof.
  revert s. induction n as [|n IH]; intros s.
  - simpl. destruct (Z.leb_spec (Z.of_nat s) v), (Z.ltb_spec v (Z.of_nat (s + 0))); simpl; try reflexivity; lia.
  - cbn [seq map]. rewrite sum_cons, IH.
    destruct (Z.eqb_spec (Z.of_nat s) v), (Z.leb_spec (Z.of_nat s) v),
      (Z.leb_spec (Z.of_nat (S s)) v), (Z.ltb_spec v (Z.of_nat (S s + n))),
      (Z.ltb_spec v (Z.of_nat (s + S n))); simpl; lia.
Qed.

Lemma sum_indicator_levels (c v : Z) :
  is_byte v = true -> sum (map (fun l => if l =? v then c else 0) levels) = c.
Proof.
  intros Hv. unfold levels. rewrite sum_indicator. unfold is_byte in Hv.
  destruct (Z.leb_spec (Z.of_nat 0) v), (Z.ltb_spec v (Z.of_nat (0 + 256))); simpl; try reflexivity; lia.
Qed.

Lemma count_nil (l : Z) : count l [] = 0.
Proof. reflexivity. Qed.

Lemma count_cons (l v : Z) (b : list Z) :
  count l (v :: b) = (if l =? v then 1 else 0) + count l b.
Proof. unfold count. simpl. destruct (l =? v); simpl List.length; lia. Qed.

Lemma count_nonneg (l : Z) (b : list Z) : 0 <= count l b.
Proof. unfold count. lia. Qed.

Lemma count_pos (l : Z) (b : list Z) : In l b -> 0 < count l b.
Proof.
  induction b as [|v b IH]; [contradiction|]. intros [E|H]; rewrite count_cons.
  - subst. rewrite Z.eqb_refl. pose proof (count_nonneg l b). lia.
  - specialize (IH H). destruct (l =? v); lia.
Qed.

Lemma length_levels : List.length levels = 256%nat.
Proof. reflexivity. Qed.

Lemma length_band_histogram (b : list Z) : List.length (band_histogram b) = 256%nat.
Proof. unfold band_histogram. rewrite length_map. reflexivity. Qed.

Lemma enumerate_band_histogram (b : list Z) :
  enumerate (band_histogram b) = map (fun l => (l, count l b)) levels.
Proof.
  unfold enumerate. rewrite length_band_histogram. unfold band_histogram.
  change (map Z.of_nat (seq 0 256)) with levels.
  induction levels as [|l ls IH]; simpl; [reflexivity|]. now rewrite IH.
Qed.

(** The histogram counts every pixel once, and weighs it by its level. *)
Lemma sum_band_histogram (b : list Z) :
  forallb is_byte b = true -> sum (band_histogram b) = Z.of_nat (List.length b).
Proof.
  unfold band_histogram. induction b as [|v b IH]; intros Hb.
  - rewrite (sum_map_ext _ (fun _ => 0)) by reflexivity. apply sum_map_zero.
  - simpl in Hb. apply andb_prop in Hb as [Hv Hb].
    rewrite (sum_map_ext _ (fun l => (if l =? v then 1 else 0) + count l b))
      by (intros; apply count_cons).
    rewrite sum_map_add, sum_indicator_levels, IH by assumption.
    simpl List.length. lia.
Qed.

Lemma weighted_levels (b : list Z) :
  forallb is_byte b = true -> sum (map (fun l => l * count l b) levels) = sum b.
Proof.
  intros Hb. induction b as [|v b IH].
  - rewrite (sum_map_ext _ (fun _ => 0)) by (intros; rewrite count_nil; lia).
    apply sum_map_zero.
  - simpl in Hb. apply andb_prop in Hb as [Hv Hb].
    rewrite (sum_map_ext _ (fun l => (if l =? v then v else 0) + l * count l b)).
    + rewrite sum_map_add, sum_indicator_levels, IH, sum_cons by assumption. reflexivity.
    + intros l _. rewrite count_cons. destruct (Z.eqb_spec l v); subst; lia.
Qed.

Lemma weighted_band_histogram (b : list Z) :
  forallb is_byte b = true ->
  sum (map (fun '(i, w) => i * w) (enumerate (band_histogram b))) = sum b.
Proof.
  intros Hb. rewrite enumerate_band_histogram, map_map. apply weighted_levels, Hb.
Qed.

Lemma in_levels (l : Z) : In l levels <-> 0 <= l < 256.
Proof.
  unfold levels. rewrite in_map_iff. split.
  - intros (i & <- & Hi). apply in_seq in Hi. lia.
  - intros Hl. exists (Z.to_nat l). split; [lia|]. apply in_seq. lia.
Qed.

Lemma nth_band_histogram (b : list Z) (l : Z) :
  0 <= l < 256 -> nth (Z.to_nat l) (band_histogram b) 0 = count l b.
Proof.
  intros Hl. unfold band_histogram.
  rewrite (nth_indep _ 0 (count 0 b)) by (rewrite length_map, length_levels; lia).
  rewrite (map_nth (fun l => count l b) levels 0). f_equal.
  unfold levels. change 0 with (Z.of_nat 0) at 1. rewrite map_nth, seq_nth by lia. lia.
Qed.

Lemma sum_bytes_bounds (b : list Z) :
  forallb is_byte b = true -> 0 <= sum b <= 255 * Z.of_nat (List.length b).
Proof.
  induction b as [|v b IH]; intros Hb; [simpl; unfold sum; simpl; lia|].
  simpl in Hb. apply andb_prop in Hb as [Hv Hb]. specialize (IH Hb).
  rewrite sum_cons. unfold is_byte in Hv. simpl List.length. lia.
Qed.

(** ** Well-formed images *)

Lemma is_byte_iff (v : Z) : is_byte v = true <-> 0 <= v <= 255.
Proof. unfold is_byte. rewrite andb_true_iff, !Z.leb_le. reflexivity. Qed.

Lemma rgb2l_byte (r g b : Z) :
  is_byte r = true -> is_byte g = true -> is_byte b = true -> is_byte (rgb2l r g b) = true.
Proof.
  rewrite !is_byte_iff. unfold rgb2l, L24. intros Hr Hg Hb.
  rewrite Z.shiftr_div_pow2 by lia. change (2 ^ 16) with 65536.
  split.
  - apply Z.div_pos; lia.
  - assert (H : r * 19595 + g * 38470 + b * 7471 + 32768 < 65536 * 256) by lia.
    apply Z.div_lt_upper_bound in H; lia.
Qed.

Lemma map3_bytes (rs gs bs : list Z) :
  forallb is_byte rs = true -> forallb is_byte gs = true -> forallb is_byte bs = true ->
  forallb is_byte (map3 rgb2l rs gs bs) = true.
Proof.
  revert gs bs. induction rs as [|r rs IH]; intros [|g gs] [|b bs]; simpl; try reflexivity.
  rewrite !andb_true_iff. intros [Hr Hrs] [Hg Hgs] [Hb Hbs].
  split; [apply rgb2l_byte; assumption|apply IH; assumption].
Qed.

Lemma map3_length {A B C D} (f : A -> B -> C -> D) (xs : list A) (ys : list B) (zs : list C) (n : nat) :
  List.length xs = n -> List.length ys = n -> List.length zs = n ->
  List.length (map3 f xs ys zs) = n.
Proof.
  revert ys zs n. induction xs as [|x xs IH]; intros [|y ys] [|z zs] n; simpl; try congruence.
  intros Hx Hy Hz. destruct n as [|n]; [discriminate|]. f_equal. apply IH; congruence.
Qed.

Lemma well_formed_shape (im : Image) :
  well_formed im = true ->
  forallb is_colour (palette im) = true /\
  match mode im with
  | Mode_L => palette im = [] /\ exists b, bands im = [b] /\ ok_band im b
  | Mode_P => exists b, bands im = [b] /\ ok_band im b
  | Mode_RGB =>
      palette im = [] /\
      exists r g b, bands im = [r; g; b] /\ ok_band im r /\ ok_band im g /\ ok_band im b
  | Mode_RGBA =>
      palette im = [] /\
      exists r g b a, bands im = [r; g; b; a]
                      /\ ok_band im r /\ ok_band im g /\ ok_band im b /\ ok_band im a
  end.
Proof.
  unfold well_formed, ok_band. destruct im as [m sz bs pal]. cbn [mode size bands palette].
  rewrite !andb_true_iff. intros [[[Hlen Hbs] Hpal] Hp]. split; [exact Hpal|].
  apply Nat.eqb_eq in Hlen.
  assert (Hpal' : m = Mode_P \/ pal = []).
  { apply orb_prop in Hp as [Hp|Hp]; [left; destruct m; try discriminate; reflexivity|].
    right. destruct pal; [reflexivity|discriminate]. }
  destruct m; cbn [getbands] in Hlen;
    repeat (destruct bs as [|? bs]; try discriminate Hlen);
    cbn [forallb] in Hbs; rewrite ?andb_true_iff in Hbs;
    repeat match goal with
           | H : _ /\ _ |- _ => destruct H
           | H : (_ =? _)%nat = true |- _ => apply Nat.eqb_eq in H
           end;
    try (split; [destruct Hpal' as [?|?]; [discriminate|assumption]|]);
    repeat eexists; assumption.
Qed.

Lemma getcolour_ok (pal : list (Z * Z * Z)) (i : Z) :
  forallb is_colour pal = true -> is_colour (getcolour pal i) = true.
Proof.
  intros H. unfold getcolour. rewrite forallb_forall in H.
  destruct (nth_in_or_default (Z.to_nat i) pal (0, 0, 0)) as [Hin|E].
  - apply H. exact Hin.
  - rewrite E. reflexivity.
Qed.

Lemma convert_L_bands (im : Image) :
  well_formed im = true -> bands (convert_L im) = [grey im].
Proof.
  intros H. apply well_formed_shape in H as [_ H]. unfold grey, band, convert_L.
  destruct (mode im); [destruct H as (_ & b & E & _); rewrite E; reflexivity|..]; reflexivity.
Qed.

Lemma grey_ok (im : Image) : well_formed im = true -> ok_band im (grey im).
Proof.
  intros H. apply well_formed_shape in H as [Hpal H]. unfold grey, convert_L, band, ok_band.
  destruct (mode im).
  - destruct H as (_ & b & E & Hb). rewrite E. exact Hb.
  - destruct H as (_ & r & g & b & E & [? ?] & [? ?] & [? ?]). rewrite E. cbn.
    split; [apply map3_length|apply map3_bytes]; assumption.
  - destruct H as (_ & r & g & b & a & E & [? ?] & [? ?] & [? ?] & _). rewrite E. cbn.
    split; [apply map3_length|apply map3_bytes]; assumption.
  - destruct H as (b & E & [Hl Hb]). rewrite E. cbn. rewrite length_map. split; [exact Hl|].
    rewrite forallb_forall. intros x Hx. apply in_map_iff in Hx as (i & <- & _).
    pose proof (getcolour_ok (palette im) i Hpal) as Hc.
    destruct (getcolour (palette im) i) as [[cr cg] cb]. unfold is_colour in Hc.
    rewrite !andb_true_iff in Hc. destruct Hc as [[? ?] ?].
    apply rgb2l_byte; assumption.
Qed.

Lemma histogram_grey (im : Image) :
  well_formed im = true -> histogram (convert_L im) = band_histogram (grey im).
Proof.
  intros H. unfold histogram. rewrite (convert_L_bands im H). cbn [flat_map]. apply app_nil_r.
Qed.

(** The two sums of lines 12 and 15. *)
Lemma average_brightness_eq (im : Image) :
  well_formed im = true ->
  average_brightness im = true_div (sum (grey im)) (Z.of_nat (List.length (grey im))).
Proof.
  intros H. destruct (grey_ok im H) as [_ Hb]. unfold average_brightness.
  rewrite (histogram_grey im H), weighted_band_histogram, sum_band_histogram by assumption.
  reflexivity.
Qed.

(** *** Lookup tables *)

Lemma nth_levels (i : nat) : (i < 256)%nat -> nth i levels 0 = Z.of_nat i.
Proof.
  intros Hi. unfold levels. change 0 with (Z.of_nat 0) at 1.
  rewrite map_nth, seq_nth by exact Hi. reflexivity.
Qed.

Lemma nth_rev_levels (i : nat) : (i < 256)%nat -> nth i (rev levels) 0 = 255 - Z.of_nat i.
Proof.
  intros Hi. rewrite rev_nth by (rewrite length_levels; exact Hi).
  rewrite length_levels, nth_levels by lia. lia.
Qed.

Lemma nth_segment0 (A B : list Z) (i : nat) :
  List.length A = 256%nat -> (i < 256)%nat -> nth (256 * 0 + i) (A ++ B) 0 = nth i A 0.
Proof. intros HA Hi. rewrite app_nth1 by lia. f_equal. Qed.

Lemma nth_segment1 (A B C : list Z) (i : nat) :
  List.length A = 256%nat -> List.length B = 256%nat -> (i < 256)%nat ->
  nth (256 * 1 + i) (A ++ B ++ C) 0 = nth i B 0.
Proof.
  intros HA HB Hi. rewrite app_nth2 by lia. rewrite app_nth1 by lia. f_equal. lia.
Qed.

Lemma nth_segment2 (A B C D : list Z) (i : nat) :
  List.length A = 256%nat -> List.length B = 256%nat -> List.length C = 256%nat ->
  (i < 256)%nat -> nth (256 * 2 + i) (A ++ B ++ C ++ D) 0 = nth i C 0.
Proof.
  intros HA HB HC Hi. rewrite app_nth2 by lia. rewrite app_nth2 by lia.
  rewrite app_nth1 by lia. f_equal. lia.
Qed.

Lemma nth_segment2_last (A B C : list Z) (i : nat) :
  List.length A = 256%nat -> List.length B = 256%nat -> List.length C = 256%nat ->
  (i < 256)%nat -> nth (256 * 2 + i) (A ++ B ++ C) 0 = nth i C 0.
Proof. intros. rewrite <- (app_nil_r C) at 1. now apply nth_segment2. Qed.

Lemma byte_index (v : Z) : is_byte v = true -> (Z.to_nat v < 256)%nat.
Proof. rewrite is_byte_iff. lia. Qed.

(** A band mapped through a table whose segment [k] is [T]. *)
Lemma point_band_segment (lut T : list Z) (k : nat) (b : list Z) :
  (forall i, (i < 256)%nat -> nth (256 * k + i) lut 0 = nth i T 0) ->
  forallb is_byte b = true ->
  point_band lut k b = map (fun v => nth (Z.to_nat v) T 0) b.
Proof.
  intros HT Hb. unfold point_band. apply map_ext_in. intros v Hv.
  rewrite forallb_forall in Hb. apply HT, byte_index, Hb, Hv.
Qed.

Lemma map_rev_levels (b : list Z) :
  forallb is_byte b = true ->
  map (fun v => nth (Z.to_nat v) (rev levels) 0) b = map (fun v => 255 - v) b.
Proof.
  intros Hb. apply map_ext_in. intros v Hv. rewrite forallb_forall in Hb.
  specialize (Hb v Hv). rewrite nth_rev_levels by (apply byte_index; exact Hb).
  apply is_byte_iff in Hb. lia.
Qed.

Lemma map_levels (b : list Z) :
  forallb is_byte b = true -> map (fun v => nth (Z.to_nat v) levels 0) b = b.
Proof.
  intros Hb. rewrite <- (map_id b) at 2. apply map_ext_in. intros v Hv.
  rewrite forallb_forall in Hb. specialize (Hb v Hv).
  rewrite nth_levels by (apply byte_index; exact Hb). apply is_byte_iff in Hb. lia.
Qed.

Lemma length_rev_levels : List.length (rev levels) = 256%nat.
Proof. rewrite length_rev. apply length_levels. Qed.

(** [invert] on an RGB image is the negative. *)
Lemma invert_RGB (im : Image) :
  mode im = Mode_RGB -> well_formed im = true -> ImageOps.invert im = ret (negative im).
Proof.
  intros Hm Hwf. apply well_formed_shape in Hwf as [_ Hs]. rewrite Hm in Hs.
  destruct Hs as (_ & r & g & b & E & [_ Hr] & [_ Hg] & [_ Hb]).
  unfold ImageOps.invert, ImageOps._lut, negative, point. rewrite Hm, E.
  rewrite length_rev_levels. cbn [Nat.eqb point_bands map]. unfold ret. do 3 f_equal.
  pose proof length_rev_levels as HL.
  rewrite (point_band_segment _ (rev levels) 0 r), (point_band_segment _ (rev levels) 1 g),
    (point_band_segment _ (rev levels) 2 b);
    try assumption;
    try (intros i Hi; first [apply nth_segment0|apply nth_segment1|apply nth_segment2_last]; assumption).
  rewrite !map_rev_levels by assumption. reflexivity.
Qed.

(** ** Lines 10 to 25 *)

Lemma well_formed_RGB (sz : nat * nat) (r g b : list Z) :
  let im := mkImage Mode_RGB sz [r; g; b] [] in
  ok_band im r -> ok_band im g -> ok_band im b -> well_formed im = true.
Proof.
  intros im [Lr Br] [Lg Bg] [Lb Bb]. unfold well_formed. cbn in *.
  rewrite Lr, Lg, Lb, Br, Bg, Bb, Nat.eqb_refl. reflexivity.
Qed.

Lemma map_channel_bytes (pal : list (Z * Z * Z)) (f : Z * Z * Z -> Z) (b : list Z) :
  (forall c, is_colour c = true -> is_byte (f c) = true) ->
  forallb is_colour pal = true ->
  forallb is_byte (map (fun i => f (getcolour pal i)) b) = true.
Proof.
  intros Hf Hpal. rewrite forallb_forall. intros x Hx.
  apply in_map_iff in Hx as (i & <- & _). apply Hf, getcolour_ok, Hpal.
Qed.

Lemma colour_channels (c : Z * Z * Z) :
  is_colour c = true ->
  is_byte (red c) = true /\ is_byte (green c) = true /\ is_byte (blue c) = true.
Proof.
  destruct c as [[r g] b]. unfold is_colour, red, green, blue. cbn [fst snd].
  rewrite !andb_true_iff. tauto.
Qed.

(** [convert('RGB')] gives a well-formed RGB image. *)
Lemma convert_RGB_ok (im : Image) :
  well_formed im = true ->
  mode (convert_RGB im) = Mode_RGB /\ well_formed (convert_RGB im) = true.
Proof.
  intros H. pose proof H as Hwf. apply well_formed_shape in H as [Hpal H].
  unfold convert_RGB, band. destruct (mode im) eqn:Hm.
  - destruct H as (_ & b & E & Hb). rewrite E. split; [reflexivity|]. cbn [nth].
    apply well_formed_RGB; exact Hb.
  - split; assumption.
  - destruct H as (_ & r & g & b & a & E & Hr & Hg & Hb & _). rewrite E. split; [reflexivity|].
    cbn [nth]. apply well_formed_RGB; assumption.
  - destruct H as (b & E & [Hl Hb]). rewrite E. split; [reflexivity|]. cbn [nth].
    apply well_formed_RGB; (split; [rewrite length_map; exact Hl|]);
      apply map_channel_bytes; try exact Hpal; intros c Hc; apply colour_channels in Hc; tauto.
Qed.

Lemma true_div_nonzero (a b : Z) :
  b <> 0 -> true_div a b = ret (Float64.round (inject_Z a / inject_Z b)).
Proof. intros Hb. unfold true_div. apply Z.eqb_neq in Hb. rewrite Hb. reflexivity. Qed.

Lemma Qltb_lt (x y : Q) : Qltb x y = true <-> (x < y)%Q.
Proof.
  unfold Qltb. rewrite Qlt_alt. destruct (x ?= y)%Q; split; congruence.
Qed.

Lemma bind_ret {A B} (a : A) (k : A -> Py B) : bind (ret a) k = k a.
Proof. unfold bind, ret. destruct (k a). reflexivity. Qed.

Lemma bind_print {B} (l : Line) (k : unit -> Py B) :
  bind (print l) k = (l :: stdout (k tt), result (k tt)).
Proof. unfold bind, print. destruct (k tt). reflexivity. Qed.

(** The three ways lines 10 to 25 can go. *)
Lemma before_contrast_dark (im : Image) (a : Q) :
  well_formed im = true -> average_brightness im = ret a -> (a < 128)%Q ->
  before_contrast im
  = ([AverageBrightness a; DetectedDarkMode], Ok (negative (convert_RGB im))).
Proof.
  intros Hwf Ha Hlt. apply Qltb_lt in Hlt. destruct (convert_RGB_ok im Hwf) as [Hm Hc].
  unfold before_contrast, dark_mode_step.
  rewrite Ha, bind_ret, Hlt, (invert_RGB _ Hm Hc), !bind_print. reflexivity.
Qed.

Lemma before_contrast_light (im : Image) (a : Q) :
  average_brightness im = ret a -> ~ (a < 128)%Q ->
  before_contrast im = ([AverageBrightness a; AlreadyLightMode], Ok im).
Proof.
  intros Ha Hge. unfold before_contrast, dark_mode_step. rewrite Ha, bind_ret.
  destruct (Qltb a 128) eqn:C; [apply Qltb_lt in C; contradiction|reflexivity].
Qed.

Lemma before_contrast_raise (im : Image) (e : Exception) :
  average_brightness im = raise e -> before_contrast im = raise e.
Proof. intros H. unfold before_contrast. rewrite H. reflexivity. Qed.

(** The mean is computed, or there is no pixel. *)
Lemma average_brightness_cases (im : Image) :
  well_formed im = true ->
  (grey im = [] /\ average_brightness im = raise ZeroDivisionError)
  \/ (grey im <> [] /\
      average_brightness im
      = ret (Float64.round (inject_Z (sum (grey im))
                            / inject_Z (Z.of_nat (List.length (grey im)))))).
Proof.
  intros H. rewrite (average_brightness_eq im H). destruct (grey im) as [|v b].
  - left. split; reflexivity.
  - right. split; [discriminate|]. apply true_div_nonzero. simpl List.length. lia.
Qed.

(** ** The mean grey level *)

(** The float mean is the rounded weighted mean of the histogram. *)
Lemma weighted_mean_band_histogram (b : list Z) :
  forallb is_byte b = true ->
  weighted_mean (band_histogram b)
  = (inject_Z (sum b) / inject_Z (Z.of_nat (List.length b)))%Q.
Proof.
  intros Hb. unfold weighted_mean. rewrite sum_band_histogram by exact Hb.
  rewrite (sum_map_ext _ (fun l => l * count l b)).
  - rewrite weighted_levels by exact Hb. reflexivity.
  - intros l Hl. apply in_levels in Hl. rewrite nth_band_histogram by exact Hl. reflexivity.
Qed.

Lemma mean_bounds (b : list Z) :
  forallb is_byte b = true -> b <> [] ->
  (0 <= inject_Z (sum b) / inject_Z (Z.of_nat (List.length b)) <= 255)%Q.
Proof.
  intros Hb Hne. pose proof (sum_bytes_bounds b Hb) as [H0 H1].
  assert (Hn : (0 < inject_Z (Z.of_nat (List.length b)))%Q).
  { rewrite <- (Zlt_Qlt 0). destruct b; [contradiction|simpl List.length; lia]. }
  split.
  - apply Qle_shift_div_l; [exact Hn|]. rewrite Qmult_0_l, <- (Zle_Qle 0). exact H0.
  - apply Qle_shift_div_r; [exact Hn|].
    change 255%Q with (inject_Z 255). rewrite <- inject_Z_mult, <- Zle_Qle. exact H1.
Qed.

Lemma uniform_sum (v : Z) (b : list Z) :
  forallb (Z.eqb v) b = true -> sum b = v * Z.of_nat (List.length b).
Proof.
  induction b as [|x b IH]; intros H; [unfold sum; simpl; lia|].
  simpl in H. apply andb_prop in H as [Hx H]. apply Z.eqb_eq in Hx. subst x.
  rewrite sum_cons, IH by exact H. simpl List.length. lia.
Qed.

Lemma length_nonzero {A} (l : list A) : negb (List.length l =? 0)%nat = true <-> l <> [].
Proof. destruct l; simpl; split; congruence. Qed.

Lemma uniform_average (v : Z) (im : Image) :
  well_formed im = true -> uniform_grey v im = true ->
  average_brightness im = ret (Float64.round (inject_Z v)).
Proof.
  intros Hwf Hu. unfold uniform_grey in Hu. apply andb_prop in Hu as [Hne Hu].
  apply length_nonzero in Hne.
  destruct (average_brightness_cases im Hwf) as [[E _]|[_ ->]]; [contradiction|].
  erewrite round_comp; [reflexivity|]. rewrite (uniform_sum v _ Hu), inject_Z_mult.
  field. intros H. apply (inject_Z_injective _ 0) in H. destruct (grey im); [contradiction|discriminate].
Qed.

Lemma two_level_sums (b : list Z) :
  forallb (fun v => (v =? 0) || (v =? 255)) b = true ->
  sum b = 255 * count 255 b /\ Z.of_nat (List.length b) = count 0 b + count 255 b.
Proof.
  induction b as [|v b IH]; intros H; [split; reflexivity|].
  simpl in H. apply andb_prop in H as [Hv H]. destruct (IH H) as [IH1 IH2].
  rewrite sum_cons, !count_cons, IH1. cbn [List.length]. rewrite Nat2Z.inj_succ.
  apply orb_prop in Hv as [Hv|Hv]; apply Z.eqb_eq in Hv; subst v;
    cbv beta iota delta [Z.eqb Pos.eqb]; lia.
Qed.

Lemma half_half_average (im : Image) :
  well_formed im = true -> half_black_half_white im = true ->
  average_brightness im = ret (255 # 2)%Q.
Proof.
  intros Hwf Hh. unfold half_black_half_white in Hh.
  apply andb_prop in Hh as [Hh Hne]. apply andb_prop in Hh as [Hlv Hc].
  apply length_nonzero in Hne. apply Z.eqb_eq in Hc.
  destruct (average_brightness_cases im Hwf) as [[E _]|[_ ->]]; [contradiction|].
  destruct (two_level_sums _ Hlv) as [S1 S2]. rewrite S1, S2, Hc.
  assert (R : Float64.round (255 # 2) = (255 # 2)%Q) by (vm_compute; reflexivity).
  rewrite <- R. erewrite round_comp; [reflexivity|].
  assert (Hpos : count 255 (grey im) <> 0).
  { intros Z0. rewrite Hc, Z0 in S2. destruct (grey im); [contradiction|discriminate]. }
  rewrite inject_Z_mult, inject_Z_plus. change (255 # 2)%Q with (inject_Z 255 / 2)%Q.
  field. intros H. apply Hpos. apply inject_Z_injective. change (inject_Z 0) with 0%Q. lra.
Qed.

(** *** [autocontrast] *)

Lemma present_band_histogram (b : list Z) (l : Z) :
  0 <= l < 256 -> present (band_histogram b) l = true <-> In l b.
Proof.
  intros Hl. unfold present. rewrite nth_band_histogram by exact Hl.
  rewrite negb_true_iff, Z.eqb_neq. split.
  - intros Hc. unfold count in Hc.
    destruct (filter (Z.eqb l) b) as [|x xs] eqn:F; [contradiction|].
    assert (Hx : In x (filter (Z.eqb l) b)) by (rewrite F; left; reflexivity).
    apply filter_In in Hx as [Hx E]. apply Z.eqb_eq in E. subst x. exact Hx.
  - intros Hin. pose proof (count_pos l b Hin). lia.
Qed.

Lemma lowest_0 (b : list Z) : In 0 b -> ImageOps.lowest (band_histogram b) = 0.
Proof.
  intros H. unfold ImageOps.lowest. fold (present (band_histogram b)).
  change levels with (0 :: map Z.of_nat (seq 1 255)). cbn [find].
  apply (present_band_histogram b 0) in H; [|lia]. rewrite H. reflexivity.
Qed.

Lemma highest_255 (b : list Z) : In 255 b -> ImageOps.highest (band_histogram b) = 255.
Proof.
  intros H. unfold ImageOps.highest. fold (present (band_histogram b)).
  change (rev levels) with (255 :: rev (map Z.of_nat (seq 0 255))). cbn [find].
  apply (present_band_histogram b 255) in H; [|lia]. rewrite H. reflexivity.
Qed.

(** In a band with a single value, that value is the lowest and the
    highest level. *)
Lemma find_single (b : list Z) (v : Z) (ls : list Z) :
  (forall l, In l ls <-> 0 <= l < 256) ->
  is_byte v = true -> b <> [] -> forallb (Z.eqb v) b = true ->
  find (present (band_histogram b)) ls = Some v.
Proof.
  intros Hls Hv Hne Hu. apply is_byte_iff in Hv.
  assert (Hin : In v b).
  { destruct b as [|x b]; [contradiction|]. simpl in Hu. apply andb_prop in Hu as [E _].
    apply Z.eqb_eq in E. subst x. left. reflexivity. }
  destruct (find (present (band_histogram b)) ls) as [x|] eqn:F.
  - apply find_some in F as [Hx Px]. apply Hls in Hx.
    apply present_band_histogram in Px; [|exact Hx].
    rewrite forallb_forall in Hu. specialize (Hu x Px). apply Z.eqb_eq in Hu. congruence.
  - exfalso. assert (Hv' : In v ls) by (apply Hls; lia).
    pose proof (find_none _ _ F v Hv') as N.
    apply (present_band_histogram b v) in Hin; [congruence|lia].
Qed.

Lemma in_rev_levels (l : Z) : In l (rev levels) <-> 0 <= l < 256.
Proof. rewrite <- in_rev. apply in_levels. Qed.

Lemma lowest_single (b : list Z) (v : Z) :
  is_byte v = true -> b <> [] -> forallb (Z.eqb v) b = true ->
  ImageOps.lowest (band_histogram b) = v.
Proof.
  intros. unfold ImageOps.lowest. fold (present (band_histogram b)).
  rewrite (find_single b v levels) by (assumption || apply in_levels). reflexivity.
Qed.

Lemma highest_single (b : list Z) (v : Z) :
  is_byte v = true -> b <> [] -> forallb (Z.eqb v) b = true ->
  ImageOps.highest (band_histogram b) = v.
Proof.
  intros. unfold ImageOps.highest. fold (present (band_histogram b)).
  rewrite (find_single b v (rev levels)) by (assumption || apply in_rev_levels). reflexivity.
Qed.

(** The table of a layer that spans the whole range, or a single level, is
    the identity. *)
Lemma layer_lut_full (h : list Z) :
  ImageOps.lowest h = 0 -> ImageOps.highest h = 255 -> ImageOps.layer_lut h = levels.
Proof. intros Hlo Hhi. unfold ImageOps.layer_lut. rewrite Hlo, Hhi. vm_compute. reflexivity. Qed.

Lemma layer_lut_flat (h : list Z) :
  ImageOps.highest h <= ImageOps.lowest h -> ImageOps.layer_lut h = levels.
Proof.
  intros H. unfold ImageOps.layer_lut. apply Z.leb_le in H. rewrite H. reflexivity.
Qed.

Lemma length_layer_lut (h : list Z) : List.length (ImageOps.layer_lut h) = 256%nat.
Proof.
  unfold ImageOps.layer_lut. destruct (_ <=? _); [|rewrite length_map]; apply length_levels.
Qed.

(** The layers of a histogram. *)
Lemma firstn_exact {A} (xs ys : list A) (n : nat) :
  List.length xs = n -> firstn n (xs ++ ys) = xs.
Proof.
  intros <-. induction xs as [|x xs IH]; simpl; [destruct ys; reflexivity|]. now rewrite IH.
Qed.

Lemma skipn_exact {A} (xs ys : list A) (n : nat) :
  List.length xs = n -> skipn n (xs ++ ys) = ys.
Proof. intros <-. induction xs as [|x xs IH]; simpl; [reflexivity|exact IH]. Qed.

Lemma layers_1 (A : list Z) : List.length A = 256%nat -> ImageOps.layers (A ++ []) = [A].
Proof.
  intros HA. unfold ImageOps.layers. rewrite length_app, HA. cbn [List.length].
  change ((256 + 0 + 255) / 256)%nat with 1%nat. cbn [seq map].
  change (256 * 0)%nat with 0%nat. cbn [skipn]. rewrite firstn_exact by exact HA. reflexivity.
Qed.

Lemma layers_3 (A B C : list Z) :
  List.length A = 256%nat -> List.length B = 256%nat -> List.length C = 256%nat ->
  ImageOps.layers (A ++ B ++ C ++ []) = [A; B; C].
Proof.
  intros HA HB HC. unfold ImageOps.layers. rewrite !length_app, HA, HB, HC. cbn [List.length].
  change ((256 + (256 + (256 + 0)) + 255) / 256)%nat with 3%nat. cbn [seq map].
  change (256 * 0)%nat with 0%nat. change (256 * 1)%nat with 256%nat.
  change (256 * 2)%nat with (256 + 256)%nat.
  rewrite <- (skipn_skipn 256 256), skipn_O.
  rewrite (skipn_exact A) by assumption. rewrite (skipn_exact B) by assumption.
  rewrite !firstn_exact by assumption. reflexivity.
Qed.

Lemma autocontrast_L (im : Image) (b : list Z) :
  mode im = Mode_L -> bands im = [b] -> forallb is_byte b = true ->
  ImageOps.autocontrast im = ret (mkImage Mode_L (size im) [stretch b] (palette im)).
Proof.
  intros Hm E Hb. unfold ImageOps.autocontrast, ImageOps._lut, histogram, point.
  rewrite Hm, E. cbn [flat_map]. rewrite layers_1 by apply length_band_histogram.
  cbn [flat_map point_bands]. unfold stretch.
  rewrite (point_band_segment _ (ImageOps.layer_lut (band_histogram b)) 0 b); [reflexivity| |exact Hb].
  intros i Hi. apply nth_segment0; [apply length_layer_lut|exact Hi].
Qed.

Lemma autocontrast_RGB (im : Image) (r g b : list Z) :
  mode im = Mode_RGB -> bands im = [r; g; b] ->
  forallb is_byte r = true -> forallb is_byte g = true -> forallb is_byte b = true ->
  ImageOps.autocontrast im
  = ret (mkImage Mode_RGB (size im) [stretch r; stretch g; stretch b] (palette im)).
Proof.
  intros Hm E Hr Hg Hb. unfold ImageOps.autocontrast, ImageOps._lut, histogram, point.
  rewrite Hm, E. cbn [flat_map]. rewrite layers_3 by apply length_band_histogram.
  cbn [flat_map point_bands].
  replace (List.length _ =? 256)%nat with false
    by (rewrite !length_app, !length_layer_lut; reflexivity).
  pose proof (length_layer_lut (band_histogram r)). pose proof (length_layer_lut (band_histogram g)).
  pose proof (length_layer_lut (band_histogram b)). unfold stretch.
  rewrite (point_band_segment _ (ImageOps.layer_lut (band_histogram r)) 0 r),
    (point_band_segment _ (ImageOps.layer_lut (band_histogram g)) 1 g),
    (point_band_segment _ (ImageOps.layer_lut (band_histogram b)) 2 b);
    try assumption; try reflexivity;
    intros i Hi; first [apply nth_segment0|apply nth_segment1|apply nth_segment2]; assumption.
Qed.

Lemma stretch_full (b : list Z) :
  forallb is_byte b = true -> In 0 b -> In 255 b -> stretch b = b.
Proof.
  intros Hb H0 H255. unfold stretch.
  rewrite layer_lut_full by (apply lowest_0 || apply highest_255; assumption).
  apply map_levels, Hb.
Qed.

Lemma stretch_single (b : list Z) (v : Z) :
  is_byte v = true -> forallb (Z.eqb v) b = true -> stretch b = b.
Proof.
  intros Hv Hu. destruct b as [|x b']; [reflexivity|]. set (b := x :: b') in *.
  assert (Hne : b <> []) by discriminate.
  assert (Hb : forallb is_byte b = true).
  { rewrite forallb_forall in *. intros y Hy. specialize (Hu y Hy). apply Z.eqb_eq in Hu.
    subst y. exact Hv. }
  unfold stretch. rewrite layer_lut_flat.
  - apply map_levels, Hb.
  - rewrite (lowest_single b v), (highest_single b v) by assumption. lia.
Qed.

(** The negative of a well-formed image is well formed. *)
Lemma negative_bytes (b : list Z) :
  forallb is_byte b = true -> forallb is_byte (map (fun v => 255 - v) b) = true.
Proof.
  rewrite !forallb_forall. intros H x Hx. apply in_map_iff in Hx as (v & <- & Hv).
  specialize (H v Hv). apply is_byte_iff in H. apply is_byte_iff. lia.
Qed.

Lemma negative_ok (im : Image) :
  mode im = Mode_RGB -> well_formed im = true ->
  mode (negative im) = Mode_RGB /\ well_formed (negative im) = true
  /\ palette (negative im) = [].
Proof.
  intros Hm H. apply well_formed_shape in H as [_ H]. rewrite Hm in H.
  destruct H as (Hp & r & g & b & E & [Lr Br] & [Lg Bg] & [Lb Bb]).
  destruct im as [m sz bs pal]. cbn in *. subst m bs pal. unfold negative.
  cbn [mode size bands palette map]. split; [reflexivity|]. split; [|reflexivity].
  apply well_formed_RGB; (split; [rewrite length_map; assumption|apply negative_bytes; assumption]).
Qed.

Lemma negative_involutive (im : Image) : negative (negative im) = im.
Proof.
  destruct im as [m sz bs pal]. unfold negative. cbn [mode size bands palette]. f_equal.
  rewrite map_map. rewrite <- (map_id bs) at 2. apply map_ext. intros b.
  rewrite map_map. rewrite <- (map_id b) at 2. apply map_ext. intros v. lia.
Qed.

(** *** The whole function *)

Lemma stdout_bind {A B} (m : Py A) (k : A -> Py B) :
  stdout (bind m k)
  = stdout m ++ match result m with Ok a => stdout (k a) | Raise _ => [] end.
Proof.
  destruct m as [out [a|e]]; unfold bind, stdout, result; cbn [fst snd].
  - destruct (k a). reflexivity.
  - symmetry. apply app_nil_r.
Qed.

Lemma pixel_count_grey (im : Image) :
  well_formed im = true -> List.length (grey im) = pixel_count im.
Proof. intros H. destruct (grey_ok im H) as [Hlen _]. exact Hlen. Qed.

Lemma average_pixels (im : Image) (a : Q) :
  well_formed im = true -> average_brightness im = ret a -> pixel_count im <> 0%nat.
Proof.
  intros Hwf Ha Hn. rewrite <- (pixel_count_grey im Hwf) in Hn.
  destruct (average_brightness_cases im Hwf) as [[_ E]|[Hne _]].
  - rewrite E in Ha. discriminate Ha.
  - destruct (grey im); [contradiction|discriminate].
Qed.

Lemma optimize_refused (w : World) (image_path output_path : string) (im : Image) :
  files w image_path = Some (ImageFile im) -> pixel_count im = 0%nat ->
  optimize_image_for_ocr w image_path output_path = raise UnidentifiedImageError.
Proof.
  intros H Hn. unfold optimize_image_for_ocr, Image_open. rewrite H, Hn. reflexivity.
Qed.

Lemma optimize_opened (w : World) (image_path output_path : string) (im : Image) :
  files w image_path = Some (ImageFile im) -> pixel_count im <> 0%nat ->
  optimize_image_for_ocr w image_path output_path
  = (image <- before_contrast im ;;
     image <- ImageOps.autocontrast image ;;
     w' <- Image_save w image output_path ;;
     print (Saved output_path) ;;;
     ret w').
Proof.
  intros H Hn. unfold optimize_image_for_ocr, Image_open. rewrite H.
  apply Nat.eqb_neq in Hn. rewrite Hn, bind_ret. reflexivity.
Qed.

Lemma autocontrast_silent (im : Image) : stdout (ImageOps.autocontrast im) = [].
Proof. unfold ImageOps.autocontrast, ImageOps._lut. destruct (mode im); reflexivity. Qed.

Lemma save_silent (w : World) (im : Image) (p : string) : stdout (Image_save w im p) = [].
Proof. unfold Image_save. destruct (writable w p); reflexivity. Qed.

(** Only lines 20 to 25 print the dark-mode line. *)
Lemma inversion_taken_optimize (w : World) (image_path output_path : string) (im : Image) :
  files w image_path = Some (ImageFile im) -> well_formed im = true ->
  inversion_taken (optimize_image_for_ocr w image_path output_path)
  <-> inversion_taken (before_contrast im).
Proof.
  intros H Hwf. destruct (Nat.eq_dec (pixel_count im) 0) as [Hn|Hn].
  { rewrite (optimize_refused _ _ _ _ H Hn).
    rewrite <- (pixel_count_grey im Hwf) in Hn.
    destruct (average_brightness_cases im Hwf) as [[_ E]|[Hne _]].
    - rewrite (before_contrast_raise im _ E). reflexivity.
    - destruct (grey im); [contradiction|discriminate]. }
  rewrite (optimize_opened _ _ _ _ H Hn). unfold inversion_taken.
  rewrite stdout_bind, in_app_iff. split; [|tauto]. intros [Hin|Hin]; [exact Hin|exfalso].
  destruct (result (before_contrast im)) as [x|e]; [|contradiction].
  rewrite stdout_bind, autocontrast_silent in Hin. cbn [app] in Hin.
  destruct (result (ImageOps.autocontrast x)) as [y|e]; [|contradiction].
  rewrite stdout_bind, save_silent in Hin. cbn [app] in Hin.
  destruct (result (Image_save w y output_path)) as [w'|e]; [|contradiction].
  rewrite bind_print in Hin. cbn in Hin. destruct Hin as [Hin|[]]. discriminate.
Qed.

(** ** The claims on the image normaliser *)

(** C1.  For every decodable input image, [optimize_image_for_ocr] takes the
    inversion branch exactly when the mean grey level it computed is below
    128.  On that branch the image handed to the contrast stretch is the
    RGB conversion of the input with every sample [v] replaced by
    [255 - v]; otherwise it is the input itself, unchanged.  An image with
    half of its pixels at grey level 0 and half at 255 has mean 127.5 and is
    inverted. *)
Theorem inversion_iff_average_below_128
    (w : World) (image_path output_path : string) (im : Image) :
  files w image_path = Some (ImageFile im) -> well_formed im = true ->
  let run := optimize_image_for_ocr w image_path output_path in
  (inversion_taken run <-> exists a, average_brightness im = ret a /\ (a < 128)%Q)
  /\ (forall a, average_brightness im = ret a -> (a < 128)%Q ->
        result (before_contrast im) = Ok (negative (convert_RGB im)))
  /\ (forall a, average_brightness im = ret a -> ~ (a < 128)%Q ->
        ~ inversion_taken run /\ result (before_contrast im) = Ok im)
  /\ (half_black_half_white im = true ->
        average_brightness im = ret (255 # 2)%Q /\ inversion_taken run).
Proof.
  intros Hf Hwf run.
  assert (Dark : forall a, average_brightness im = ret a -> (a < 128)%Q -> inversion_taken run).
  { intros a Ha Hlt. apply (inversion_taken_optimize _ _ _ _ Hf Hwf). unfold inversion_taken.
    rewrite (before_contrast_dark im a Hwf Ha Hlt). cbn. auto. }
  assert (Light : forall a, average_brightness im = ret a -> ~ (a < 128)%Q -> ~ inversion_taken run).
  { intros a Ha Hge Hin. apply (inversion_taken_optimize _ _ _ _ Hf Hwf) in Hin.
    unfold inversion_taken in Hin. rewrite (before_contrast_light im a Ha Hge) in Hin.
    cbn in Hin. destruct Hin as [Hin|[Hin|[]]]; discriminate. }
  split; [split|split; [|split]].
  - intros Hin. destruct (average_brightness_cases im Hwf) as [[_ E]|[_ E]].
    + apply (inversion_taken_optimize _ _ _ _ Hf Hwf) in Hin. unfold inversion_taken in Hin.
      rewrite (before_contrast_raise im _ E) in Hin. destruct Hin.
    + eexists. split; [exact E|]. apply Qnot_le_lt. intros Hle. eapply Light; eauto.
      apply Qle_not_lt. exact Hle.
  - intros (a & Ha & Hlt). eapply Dark; eauto.
  - intros a Ha Hlt. rewrite (before_contrast_dark im a Hwf Ha Hlt). reflexivity.
  - intros a Ha Hge. split.
    + eapply Light; eauto.
    + rewrite (before_contrast_light im a Ha Hge). reflexivity.
  - intros Hh. split.
    + apply half_half_average; assumption.
    + apply (Dark (255 # 2)%Q); [apply half_half_average; assumption|reflexivity].
Qed.

(** C2.  The computed mean grey level is the float quotient of the two sums
    of the specification, [sum(level * count[level])] over the levels 0 to
    255 and the number of pixels, that is the weighted mean of the grey
    histogram rounded to a float, and it lies between 0 and 255.  It is
    computed for every image that has a pixel; it is 0 for an all-black and
    255 for an all-white image. *)
Theorem average_brightness_weighted_mean (im : Image) :
  well_formed im = true ->
  (forall a, result (average_brightness im) = Ok a ->
     a = Float64.round (weighted_mean (histogram (convert_L im))) /\ (0 <= a <= 255)%Q)
  /\ ((0 < pixel_count im)%nat -> exists a, average_brightness im = ret a)
  /\ (uniform_grey 0 im = true -> average_brightness im = ret 0%Q)
  /\ (uniform_grey 255 im = true -> average_brightness im = ret 255%Q).
Proof.
  intros Hwf. destruct (grey_ok im Hwf) as [Hlen Hb]. split; [|split; [|split]].
  - intros a H.
    destruct (average_brightness_cases im Hwf) as [[_ E]|[Hne E]]; rewrite E in H; [discriminate|].
    cbn in H. injection H as <-. split.
    + rewrite (histogram_grey im Hwf), weighted_mean_band_histogram by exact Hb. reflexivity.
    + apply (round_between 0 255 _ (Qle_refl 0) round_0 round_255), (mean_bounds _ Hb Hne).
  - intros Hpos. destruct (average_brightness_cases im Hwf) as [[E _]|[_ E]]; [|eauto].
    unfold pixel_count in Hpos. rewrite <- Hlen, E in Hpos. inversion Hpos.
  - intros Hu. rewrite (uniform_average 0 im Hwf Hu). reflexivity.
  - intros Hu. rewrite (uniform_average 255 im Hwf Hu). reflexivity.
Qed.

(** C3.  Inversion is an involution on RGB images: [ImageOps.invert] gives
    the negative, and inverting the result gives back the image it started
    from, sample for sample. *)
Theorem invert_involution (im : Image) :
  mode im = Mode_RGB -> well_formed im = true ->
  ImageOps.invert im = ret (negative im)
  /\ (inverted <- ImageOps.invert im ;; ImageOps.invert inverted) = ret im.
Proof.
  intros Hm Hwf. destruct (negative_ok im Hm Hwf) as (Hm' & Hwf' & _).
  rewrite (invert_RGB im Hm Hwf), bind_ret, (invert_RGB _ Hm' Hwf'), negative_involutive.
  split; reflexivity.
Qed.

(** C4.  The contrast stretch leaves a fully stretched channel alone: a
    channel that contains both 0 and 255 comes out of [autocontrast]
    identical, as a greyscale image of its own and as a band of an RGB
    image. *)
Theorem autocontrast_fixes_full_range_channels :
  (forall (sz : nat * nat) (b : list Z),
      let channel := mkImage Mode_L sz [b] [] in
      well_formed channel = true -> In 0 b -> In 255 b ->
      ImageOps.autocontrast channel = ret channel)
  /\ (forall (im : Image) (k : nat),
        mode im = Mode_RGB -> well_formed im = true ->
        In 0 (band im k) -> In 255 (band im k) ->
        exists out, ImageOps.autocontrast im = ret out
                    /\ mode out = Mode_RGB /\ size out = size im
                    /\ band out k = band im k).
Proof.
  split.
  - intros sz b channel Hwf H0 H255. apply well_formed_shape in Hwf as [_ Hs].
    cbn in Hs. destruct Hs as (_ & b' & E & [_ Hb]). injection E as <-.
    rewrite (autocontrast_L channel b) by (reflexivity || assumption).
    rewrite stretch_full by assumption. reflexivity.
  - intros im k Hm Hwf H0 H255. apply well_formed_shape in Hwf as [_ Hs]. rewrite Hm in Hs.
    destruct Hs as (_ & r & g & b & E & [_ Hr] & [_ Hg] & [_ Hb]).
    rewrite (autocontrast_RGB im r g b) by assumption.
    eexists. split; [reflexivity|]. split; [reflexivity|]. split; [reflexivity|].
    unfold band in *. cbn [bands]. rewrite E in *.
    destruct k as [|[|[|k]]]; cbn [nth] in *; try (apply stretch_full; assumption).
    destruct k; contradiction.
Qed.

Lemma save_writable (w : World) (im : Image) (p : string) :
  writable w p = true -> Image_save w im p = ret (saved w p im).
Proof. intros H. unfold Image_save. rewrite H. reflexivity. Qed.

Lemma files_saved (w : World) (p : string) (im : Image) :
  files (saved w p im) p = Some (ImageFile im).
Proof. unfold saved. cbn [files]. rewrite String.eqb_refl. reflexivity. Qed.

(** The run on a dark image, when the output can be written. *)
Lemma optimize_dark (w : World) (image_path output_path : string) (im : Image) (a : Q) :
  files w image_path = Some (ImageFile im) -> well_formed im = true ->
  average_brightness im = ret a -> (a < 128)%Q ->
  exists out,
    ImageOps.autocontrast (negative (convert_RGB im)) = ret out
    /\ mode out = Mode_RGB /\ List.length (bands out) = 3%nat /\ palette out = []
    /\ optimize_image_for_ocr w image_path output_path
       = if writable w output_path
         then ([AverageBrightness a; DetectedDarkMode; Saved output_path],
               Ok (saved w output_path out))
         else ([AverageBrightness a; DetectedDarkMode], Raise (save_error w output_path)).
Proof.
  intros Hf Hwf Ha Hlt. destruct (convert_RGB_ok im Hwf) as [Hm Hc].
  destruct (negative_ok _ Hm Hc) as (Hm' & Hwf' & Hp').
  pose proof Hwf' as Hs. apply well_formed_shape in Hs as [_ Hs]. rewrite Hm' in Hs.
  destruct Hs as (_ & r & g & b & E & [_ Hr] & [_ Hg] & [_ Hb]).
  pose proof (autocontrast_RGB _ r g b Hm' E Hr Hg Hb) as Hauto. rewrite Hp' in Hauto.
  eexists. split; [exact Hauto|]. repeat split.
  rewrite (optimize_opened _ _ _ _ Hf (average_pixels im a Hwf Ha)),
    (before_contrast_dark im a Hwf Ha Hlt).
  unfold bind at 1. rewrite Hauto, bind_ret. unfold Image_save.
  destruct (writable w output_path); reflexivity.
Qed.

(** The run on a light image of a mode [autocontrast] accepts, when the
    output can be written. *)
Lemma optimize_light_unsupported (w : World) (image_path output_path : string)
    (im : Image) (a : Q) :
  files w image_path = Some (ImageFile im) -> well_formed im = true ->
  average_brightness im = ret a -> ~ (a < 128)%Q ->
  mode im = Mode_RGBA \/ mode im = Mode_P ->
  optimize_image_for_ocr w image_path output_path
  = ([AverageBrightness a; AlreadyLightMode],
     Raise (if Mode_eqb (mode im) Mode_P then NotImplementedError else OSError)).
Proof.
  intros Hf Hwf Ha Hge Hm.
  rewrite (optimize_opened _ _ _ _ Hf (average_pixels im a Hwf Ha)),
    (before_contrast_light im a Ha Hge).
  unfold bind at 1. unfold ImageOps.autocontrast, ImageOps._lut.
  destruct Hm as [-> | ->]; reflexivity.
Qed.

(** C9, as amended.  The division of line 16 has no guard, and lines 10 to
    16 on an image without pixels would raise [ZeroDivisionError]; but a file
    of zero width or height is refused when it is opened, so on such a file
    the function fails with the decode error [UnidentifiedImageError].  On
    an image with at least one pixel the quotient is computed. *)
Theorem zero_pixels_refused_before_division
    (w : World) (image_path output_path : string) (im : Image) :
  files w image_path = Some (ImageFile im) -> well_formed im = true ->
  (pixel_count im = 0%nat ->
     average_brightness im = raise ZeroDivisionError
     /\ optimize_image_for_ocr w image_path output_path = raise UnidentifiedImageError)
  /\ ((0 < pixel_count im)%nat ->
      exists a, average_brightness im = ret a
                /\ a = Float64.div (inject_Z (sum (grey im)))
                                   (inject_Z (Z.of_nat (pixel_count im)))).
Proof.
  intros Hf Hwf. pose proof (pixel_count_grey im Hwf) as Hlen. split; intros Hn.
  - split; [|apply (optimize_refused _ _ _ _ Hf Hn)].
    destruct (average_brightness_cases im Hwf) as [[_ E]|[Hne _]]; [exact E|].
    exfalso. apply Hne. rewrite Hn in Hlen. destruct (grey im); [reflexivity|discriminate].
  - destruct (average_brightness_cases im Hwf) as [[E _]|[_ E]].
    + rewrite E in Hlen. simpl in Hlen. lia.
    + eexists. split; [exact E|]. rewrite Hlen. reflexivity.
Qed.

(** C10.  The two branches treat the channel structure differently.  Below
    128 the image is converted to RGB before it is inverted: what goes on to
    the contrast stretch, and whatever is saved, has mode RGB, three bands
    and no palette.  From 128 on the image reaches the contrast stretch as
    it was opened, in its original mode. *)
Theorem branches_and_channel_structure
    (w : World) (image_path output_path : string) (im : Image) (a : Q) :
  files w image_path = Some (ImageFile im) -> well_formed im = true ->
  average_brightness im = ret a ->
  let run := optimize_image_for_ocr w image_path output_path in
  ((a < 128)%Q ->
     (exists rgb, result (before_contrast im) = Ok rgb
                  /\ mode rgb = Mode_RGB /\ List.length (bands rgb) = 3%nat
                  /\ palette rgb = [])
     /\ (writable w output_path = true -> exists w', result run = Ok w')
     /\ (forall w', result run = Ok w' ->
           exists out, files w' output_path = Some (ImageFile out)
                       /\ mode out = Mode_RGB /\ List.length (bands out) = 3%nat
                       /\ palette out = []))
  /\ (~ (a < 128)%Q ->
      result (before_contrast im) = Ok im
      /\ exists image, result (before_contrast im) = Ok image /\ mode image = mode im).
Proof.
  intros Hf Hwf Ha run. split.
  - intros Hlt.
    destruct (optimize_dark w image_path output_path im a Hf Hwf Ha Hlt)
      as (out & _ & Hm & Hb & Hp & Hrun).
    fold run in Hrun. split; [|split].
    + rewrite (before_contrast_dark im a Hwf Ha Hlt).
      destruct (convert_RGB_ok im Hwf) as [Hm' Hc].
      destruct (negative_ok _ Hm' Hc) as (Hn1 & Hn2 & Hn3).
      eexists. split; [reflexivity|]. split; [exact Hn1|]. split; [|exact Hn3].
      apply well_formed_shape in Hn2 as [_ Hs]. rewrite Hn1 in Hs.
      destruct Hs as (_ & r & g & b & E & _). rewrite E. reflexivity.
    + intros Hw. rewrite Hrun, Hw. eexists. reflexivity.
    + intros w' Hr. rewrite Hrun in Hr. destruct (writable w output_path); [|discriminate].
      cbn in Hr. injection Hr as <-. exists out. rewrite files_saved. repeat split; assumption.
  - intros Hge. rewrite (before_contrast_light im a Ha Hge). split; [reflexivity|].
    exists im. split; reflexivity.
Qed.

(** C5: the all-white image of a mode [autocontrast] accepts, and the one of
    a mode it does not. *)
Lemma all_white_grey (im : Image) :
  well_formed im = true -> mode im = Mode_L \/ mode im = Mode_RGB ->
  all_white im = true -> uniform_grey 255 im = true.
Proof.
  intros Hwf Hm Hw. destruct (grey_ok im Hwf) as [Hlen _]. unfold all_white in Hw.
  apply andb_prop in Hw as [Hn Hw]. unfold uniform_grey. unfold pixel_count in Hn.
  rewrite Hlen, Hn. cbn [andb]. apply well_formed_shape in Hwf as [_ Hs].
  unfold grey, convert_L, band. destruct Hm as [Hm|Hm]; rewrite Hm in *.
  - destruct Hs as (_ & b & E & _). rewrite E in *. cbn in Hw. rewrite andb_true_r in Hw. exact Hw.
  - destruct Hs as (_ & r & g & b & E & [Lr _] & [Lg _] & [Lb _]). rewrite E in *.
    cbn [forallb nth bands] in *. rewrite !andb_true_iff in Hw. destruct Hw as (Wr & Wg & Wb & _).
    clear E Hlen Hn. revert g b Lr Lg Lb Wg Wb.
    generalize (fst (size im) * snd (size im))%nat as n.
    induction r as [|x r IH]; intros n [|y g] [|z b] Lr Lg Lb Wg Wb;
      cbn [map3 forallb List.length] in *; try reflexivity; try congruence.
    apply andb_prop in Wr as [Hx Wr], Wg as [Hy Wg], Wb as [Hz Wb].
    apply Z.eqb_eq in Hx, Hy, Hz. subst x y z. destruct n; [discriminate|].
    rewrite (IH Wr n g b) by congruence. reflexivity.
Qed.

Lemma all_white_stretch (b : list Z) : forallb (Z.eqb 255) b = true -> stretch b = b.
Proof. apply stretch_single. reflexivity. Qed.

Lemma all_white_saved (w : World) (image_path output_path : string) (im : Image) :
  files w image_path = Some (ImageFile im) -> well_formed im = true ->
  mode im = Mode_L \/ mode im = Mode_RGB -> all_white im = true ->
  writable w output_path = true ->
  optimize_image_for_ocr w image_path output_path
  = ([AverageBrightness 255; AlreadyLightMode; Saved output_path],
     Ok (saved w output_path im)).
Proof.
  intros Hf Hwf Hm Hw Hwr. pose proof (all_white_grey im Hwf Hm Hw) as Hu.
  pose proof (uniform_average 255 im Hwf Hu) as Ha. change (Float64.round (inject_Z 255)) with 255%Q in Ha.
  rewrite (optimize_opened _ _ _ _ Hf (average_pixels im 255 Hwf Ha)),
    (before_contrast_light im 255 Ha) by (intros H; discriminate H).
  unfold bind at 1. unfold all_white in Hw. apply andb_prop in Hw as [_ Hw].
  pose proof Hwf as Hs. apply well_formed_shape in Hs as [_ Hs].
  assert (Hauto : ImageOps.autocontrast im = ret im).
  { destruct im as [md sz bs pal]. cbn [mode bands size palette] in *.
    destruct Hm as [-> | ->].
    - destruct Hs as (_ & b & E & [_ Hb]). subst bs. cbn in Hw. rewrite andb_true_r in Hw.
      rewrite (autocontrast_L _ b) by (reflexivity || assumption).
      rewrite all_white_stretch by exact Hw. reflexivity.
    - destruct Hs as (_ & r & g & b & E & [_ Hr] & [_ Hg] & [_ Hb]). subst bs.
      cbn [forallb] in Hw. rewrite !andb_true_iff in Hw. destruct Hw as (Wr & Wg & Wb & _).
      rewrite (autocontrast_RGB _ r g b) by (reflexivity || assumption).
      rewrite !all_white_stretch by assumption. reflexivity. }
  rewrite Hauto, bind_ret, (save_writable _ _ _ Hwr), bind_ret, bind_print. reflexivity.
Qed.

(** C5.  The all-white image in mode RGBA: the mean is 255 and the inversion
    branch is not taken, but [autocontrast] refuses the mode, the function
    raises [OSError] and nothing is saved.  ([all_white_saved] is the same
    run in the modes L and RGB, where the image is saved as it is.) *)
Theorem all_white_RGBA_not_saved :
  well_formed white_RGBA = true
  /\ all_white white_RGBA = true
  /\ average_brightness white_RGBA = ret 255%Q
  /\ main (folder white_RGBA) = ([AverageBrightness 255; AlreadyLightMode], Raise OSError).
Proof. repeat split; vm_compute; reflexivity. Qed.

(** ** Facts on pydantic models *)

Lemma get_set_same (name : string) (v : Value) (d : Dict) :
  get name (set name v d) = Some v.
Proof.
  induction d as [|[k x] d IH]; simpl.
  - rewrite String.eqb_refl. reflexivity.
  - destruct (String.eqb k name) eqn:E; simpl; rewrite E; [reflexivity|exact IH].
Qed.

Lemma get_set_other (name other : string) (v : Value) (d : Dict) :
  other <> name -> get other (set name v d) = get other d.
Proof.
  intros Hne. induction d as [|[k x] d IH]; simpl.
  - apply String.eqb_neq in Hne. rewrite String.eqb_sym, Hne. reflexivity.
  - destruct (String.eqb k name) eqn:E; simpl.
    + apply String.eqb_eq in E. subst k.
      assert (N : String.eqb name other = false) by (apply String.eqb_neq; congruence).
      rewrite N. reflexivity.
    + rewrite IH. reflexivity.
Qed.

Section FieldValidation.

Variable kwargs : Dict.




Lemma init_errors (cls : Class) (fs : list FieldInfo) (errors : list ErrorDetails) :
  init cls fs kwargs = ValidationError errors ->
  errors = fst (validate_fields fs kwargs) /\ errors <> [].
Proof.
  unfold init. destruct (validate_fields fs kwargs) as [[|e es] values]; [discriminate|].
  intros H. injection H as <-. split; [reflexivity|discriminate].
Qed.



End FieldValidation.

Lemma init_reporting (cls : Class) (fs : list FieldInfo) (kwargs : Dict) (es : list ErrorDetails) :
  init cls fs kwargs = ValidationError es -> es <> [].
Proof. intros H. apply init_errors in H. tauto. Qed.

Lemma model_validator_reporting (cls : Class) (fs : list FieldInfo) :
  reporting (model_validator cls fs).
Proof.
  intros x es. unfold model_validator.
  destruct x; try (intros H; injection H as <-; discriminate).
  - apply init_reporting.
  - destruct (Class_eqb cls0 cls); [discriminate|]. intros H; injection H as <-; discriminate.
Qed.

Lemma list_validator_reporting (item : Validator) : reporting (list_validator item).
Proof.
  intros x es. unfold list_validator.
  destruct x; try (intros H; injection H as <-; discriminate).
  destruct (validate_items item 0 items) as [[|e errors] values]; [discriminate|].
  intros H; injection H as <-; discriminate.
Qed.

Lemma validate_items_instances (cls : Class) (fs : list FieldInfo) (i : nat) (items : list Value) :
  forallb (is_instance cls) items = true ->
  validate_items (model_validator cls fs) i items = ([], items).
Proof.
  revert i. induction items as [|v items IH]; intros i H; [reflexivity|].
  cbn [forallb] in H. apply andb_prop in H as [Hv H]. cbn [validate_items].
  rewrite (IH (S i) H). destruct v; try discriminate Hv. cbn [is_instance] in Hv.
  cbn [model_validator]. rewrite Hv. reflexivity.
Qed.

Lemma str_validator_reporting : reporting str_validator.
Proof.
  intros x es. unfold str_validator.
  destruct x; try discriminate; intros H; injection H as <-; discriminate.
Qed.

Lemma bool_validator_reporting : reporting bool_validator.
Proof.
  intros x es. unfold bool_validator. destruct x; try discriminate;
    try (intros H; injection H as <-; discriminate).
  - destruct z as [|[p|p|]|p]; try discriminate; intros H; injection H as <-; discriminate.
  - destruct (member (lower s) false_words); [discriminate|].
    destruct (member (lower s) true_words); [discriminate|].
    intros H; injection H as <-; discriminate.
Qed.

Lemma model_fields_reporting (cls : Class) (f : FieldInfo) :
  In f (model_fields cls) -> reporting (field_validator f).
Proof.
  destruct cls; cbn; intros H;
    repeat (destruct H as [<-|H];
            [first [apply str_validator_reporting | apply bool_validator_reporting
                   | apply list_validator_reporting]|]);
    destruct H.
Qed.



Lemma unsatisfied_reported (cls : Class) (f : FieldInfo) (kwargs : Dict) :
  In f (model_fields cls) -> ~ satisfied kwargs f ->
  exists e, reports kwargs f e /\ hd_error (loc e) = Some (Attr (field_name f)).
Proof.
  intros Hin Hns. unfold satisfied in Hns. unfold reports.
  destruct (get (field_name f) kwargs) as [v|] eqn:G.
  - destruct (field_validator f v) as [v'|es] eqn:V; [exfalso; apply Hns; eauto|].
    pose proof (model_fields_reporting cls f Hin v es V) as Hne.
    destruct es as [|e' es]; [contradiction|].
    exists (under (Attr (field_name f)) e'). split; [|reflexivity].
    right. exists v, (e' :: es), e'. repeat split; [exact V|left; reflexivity].
  - destruct (field_default f) as [d|] eqn:D; [exfalso; apply Hns; discriminate|].
    exists (mkError [Attr (field_name f)] missing). split; [|reflexivity]. left. auto.
Qed.



(** C7.  [DatabaseSchema(tables=[], relationships=[])] is accepted, and so
    is any list of [Table] instances with any list of [Relationship]
    instances, whatever tables the relationships name: construction looks at
    the class of each item and at nothing else. *)
Theorem empty_schema_valid_and_no_cross_checks :
  new DatabaseSchema [("tables", VList []); ("relationships", VList [])]
  = Valid (VModel DatabaseSchema [("tables", VList []); ("relationships", VList [])])
  /\ (forall tables relationships,
        forallb (is_instance Table) tables = true ->
        forallb (is_instance Relationship) relationships = true ->
        new DatabaseSchema
          [("tables", VList tables); ("relationships", VList relationships)]
        = Valid (VModel DatabaseSchema
                   [("tables", VList tables); ("relationships", VList relationships)])).
Proof.
  split; [reflexivity|]. intros tables relationships Ht Hr.
  unfold new, init. cbn [model_fields DatabaseSchema_fields validate_fields list_field
                         field_name field_validator field_default get String.eqb Ascii.eqb
                         Bool.eqb list_validator].
  rewrite (validate_items_instances _ _ _ _ Ht), (validate_items_instances _ _ _ _ Hr).
  reflexivity.
Qed.

Lemma declared_public (cls : Class) (name : string) :
  In name (map field_name (model_fields cls)) ->
  String.prefix "_" name = false /\ declared cls name = true.
Proof.
  destruct cls; cbn; intros H;
    repeat (destruct H as [<-|H]; [split; reflexivity|]); destruct H.
Qed.

(** C8, as amended.  A schema record is not immutable after construction:
    assigning to a declared field of a record stores the new value in that
    field and leaves every other field as it was. *)
Theorem assignment_replaces_declared_field
    (object_setattr : Value -> string -> Value -> option Value)
    (cls : Class) (dict : Dict) (name : string) (v : Value) :
  let obj := VModel cls dict in
  In name (map field_name (model_fields cls)) ->
  exists obj', setattr object_setattr obj name v = Some obj'
               /\ getattr obj' name = Some v
               /\ forall other, other <> name -> getattr obj' other = getattr obj other.
Proof.
  intros obj Hin. destruct (declared_public cls name Hin) as [Hp Hd].
  unfold obj, setattr. rewrite Hp, Hd. eexists. split; [reflexivity|].
  split; [apply get_set_same|]. intros other Hne. apply get_set_other. exact Hne.
Qed.


Lemma empty_schema_valid_and_no_cross_checks_witness :
  new DatabaseSchema [("tables", VList []); ("relationships", VList [dangling])]
  = Valid (VModel DatabaseSchema
             [("tables", VList []); ("relationships", VList [dangling])]).
Proof.
  apply (proj2 empty_schema_valid_and_no_cross_checks); reflexivity.
Defined.

(** C8 as stated fails: a column is renamed after its construction. *)
Lemma records_are_mutable :
  exists column renamed,
    new Column [("name", VStr "id"); ("type", VStr "INTEGER")] = Valid column
    /\ (forall object_setattr,
          setattr object_setattr column "name" (VStr "renamed") = Some renamed)
    /\ getattr column "name" = Some (VStr "id")
    /\ getattr renamed "name" = Some (VStr "renamed")
    /\ forall object_setattr, ~ immutable_after_construction object_setattr.
Proof.
  do 2 eexists. repeat split; try reflexivity. intros object_setattr H.
  specialize (H Column [("name", VStr "id"); ("type", VStr "INTEGER")] _ "name"
                (VStr "renamed") _ eq_refl eq_refl "name").
  discriminate H.
Qed.

Lemma assignment_replaces_declared_field_witness :
  exists obj',
    setattr (fun _ _ _ => None)
      (VModel Column [("name", VStr "id"); ("type", VStr "INTEGER");
                      ("is_primary_key", VBool false); ("is_foreign_key", VBool false)])
      "is_primary_key" (VBool true) = Some obj'
    /\ getattr obj' "is_primary_key" = Some (VBool true)
    /\ forall other, other <> "is_primary_key" ->
         getattr obj' other
         = getattr (VModel Column [("name", VStr "id"); ("type", VStr "INTEGER");
                                   ("is_primary_key", VBool false);
                                   ("is_foreign_key", VBool false)]) other.
Proof.
  apply (assignment_replaces_declared_field (fun _ _ _ => None)).
  simpl. auto.
Defined.

(** ** Instances *)

Lemma inversion_iff_average_below_128_witness :
  average_brightness checker_L = ret (255 # 2)%Q
  /\ inversion_taken
       (optimize_image_for_ocr (folder checker_L) "your_screenshot.png"
          "optimized_screenshot.png").
Proof.
  apply (inversion_iff_average_below_128 (folder checker_L) "your_screenshot.png"
           "optimized_screenshot.png" checker_L); reflexivity.
Defined.

Lemma average_brightness_weighted_mean_witness :
  average_brightness white_L = ret 255%Q.
Proof. apply (average_brightness_weighted_mean white_L); reflexivity. Defined.

Lemma invert_involution_witness :
  (inverted <- ImageOps.invert sample_RGB ;; ImageOps.invert inverted) = ret sample_RGB.
Proof. apply (invert_involution sample_RGB); reflexivity. Defined.

Lemma autocontrast_fixes_full_range_channels_witness :
  ImageOps.autocontrast checker_L = ret checker_L.
Proof.
  apply (proj1 autocontrast_fixes_full_range_channels (2, 1)%nat [0; 255]);
    [reflexivity|simpl; auto|simpl; auto].
Defined.

(** C9 as stated fails: a file without pixels is refused when it is opened,
    before anything is divided. *)
Lemma zero_pixel_file_is_refused :
  well_formed empty_L = true
  /\ pixel_count empty_L = 0%nat
  /\ main (folder empty_L) = raise UnidentifiedImageError
  /\ ~ zero_pixels_raise_zero_division.
Proof.
  repeat split. intros H.
  specialize (H (folder empty_L) "your_screenshot.png" "optimized_screenshot.png" empty_L
                eq_refl eq_refl eq_refl).
  discriminate H.
Qed.

Lemma zero_pixels_refused_before_division_witness :
  (average_brightness empty_L = raise ZeroDivisionError
   /\ main (folder empty_L) = raise UnidentifiedImageError)
  /\ exists a, average_brightness checker_L = ret a
               /\ a = Float64.div (inject_Z (sum (grey checker_L)))
                                  (inject_Z (Z.of_nat (pixel_count checker_L))).
Proof.
  split.
  - apply (zero_pixels_refused_before_division (folder empty_L) "your_screenshot.png"
             "optimized_screenshot.png" empty_L); reflexivity.
  - apply (zero_pixels_refused_before_division (folder checker_L) "your_screenshot.png"
             "optimized_screenshot.png" checker_L); [reflexivity|reflexivity|].
    unfold pixel_count. simpl. lia.
Defined.

Lemma branches_and_channel_structure_witness :
  exists rgb,
    result (before_contrast black_on_white_RGBA) = Ok rgb
    /\ mode rgb = Mode_RGB /\ List.length (bands rgb) = 3%nat /\ palette rgb = [].
Proof.
  destruct (branches_and_channel_structure (folder black_on_white_RGBA)
              "your_screenshot.png" "optimized_screenshot.png" black_on_white_RGBA
              (255 # 2)%Q) as [Dark _]; [reflexivity|reflexivity|reflexivity|].
  destruct (Dark eq_refl) as [Hrgb _]. exact Hrgb.
Defined.
